(** * The agent-run dispatch queue of [server/services/orchestrator.ts]

    A shallow embedding of [OrchestratorQueue] (its [enqueue],
    [processQueue] and [executeTask] methods) and of the collaborators it
    calls, followed by the properties of the dispatch queue and of the
    retry/fallback executor. *)

From Stdlib Require Import String Ascii List ZArith Bool Lia PeanoNat.
From Stdlib Require Import DecimalString.
From Stdlib Require Strings.Byte.
Import ListNotations.
Local Open Scope string_scope.
Local Open Scope Z_scope.

(** ** JavaScript values and built-ins used by the source *)

Module JS.

(** What a [throw] carries: an [Error] object with its message, or any
    other value.  The source only ever asks [error instanceof Error] and
    reads [error.message]. *)
Inductive Thrown : Type :=
| Error (message : string)
| NonError.

(** [error instanceof Error ? error.message : "Unknown error"] *)
Definition messageOf (error : Thrown) : string :=
  match error with
  | Error m => m
  | NonError => "Unknown error"
  end.

(** [x || d] on an optional string: [undefined] and [""] are falsy. *)
Definition orString (x : option string) (d : string) : string :=
  match x with
  | Some EmptyString => d
  | Some s => s
  | None => d
  end.

(** [x || 0] on a number. *)
Definition orZero (x : option Z) : Z :=
  match x with
  | Some n => if n =? 0 then 0 else n
  | None => 0
  end.

(** [`${n}`] for an integral number. *)
Definition showNumber (n : Z) : string := NilZero.string_of_int (Z.to_int n).

(** *** [parseFloat]

    Strings are byte strings here (UTF-8); [trimStart] removes the
    leading [WhiteSpace] and [LineTerminator] code points of ECMAScript. *)

Definition ws1 (b : nat) : bool :=
  ((9 <=? b) && (b <=? 13) || (b =? 32))%nat.

Definition ws2 (b1 b2 : nat) : bool := ((b1 =? 194) && (b2 =? 160))%nat.

Definition ws3 (b1 b2 b3 : nat) : bool :=
  ((b1 =? 225) && (b2 =? 154) && (b3 =? 128)
   || (b1 =? 226) && (b2 =? 128)
      && ((128 <=? b3) && (b3 <=? 138) || (b3 =? 168) || (b3 =? 169) || (b3 =? 175))
   || (b1 =? 226) && (b2 =? 129) && (b3 =? 159)
   || (b1 =? 227) && (b2 =? 128) && (b3 =? 128)
   || (b1 =? 239) && (b2 =? 187) && (b3 =? 191))%nat.

Fixpoint trimStart (s : string) : string :=
  match s with
  | EmptyString => s
  | String c1 r1 =>
      if ws1 (nat_of_ascii c1) then trimStart r1
      else
        match r1 with
        | EmptyString => s
        | String c2 r2 =>
            if ws2 (nat_of_ascii c1) (nat_of_ascii c2) then trimStart r2
            else
              match r2 with
              | EmptyString => s
              | String c3 r3 =>
                  if ws3 (nat_of_ascii c1) (nat_of_ascii c2) (nat_of_ascii c3)
                  then trimStart r3
                  else s
              end
        end
  end.

Definition isDigit (c : ascii) : bool :=
  ((48 <=? nat_of_ascii c) && (nat_of_ascii c <=? 57))%nat.

Definition digitValue (c : ascii) : Z := Z.of_nat (nat_of_ascii c) - 48.

(** The longest run of [DecimalDigits] at the head of [s], and the rest. *)
Fixpoint spanDigits (s : string) : list Z * string :=
  match s with
  | String c r =>
      if isDigit c
      then let '(ds, rest) := spanDigits r in (digitValue c :: ds, rest)
      else ([], s)
  | EmptyString => ([], s)
  end.

Definition digitsValue (ds : list Z) : Z :=
  fold_left (fun acc d => 10 * acc + d) ds 0.

(** The mathematical value of the longest [StrDecimalLiteral] prefix:
    [mantissa * 10 ^ exp10], signed; or an infinity; or no literal. *)
Inductive Literal : Type :=
| NaN
| Infinity (negative : bool)
| Decimal (negative : bool) (mantissa : Z) (exp10 : Z).

Definition readSign (s : string) : bool * string :=
  match s with
  | String "+" r => (false, r)
  | String "-" r => (true, r)
  | _ => (false, s)
  end.

(** [ExponentPart], when one is complete at the head of [s]. *)
Definition readExponent (s : string) : Z :=
  match s with
  | String c r =>
      if (Ascii.eqb c "e" || Ascii.eqb c "E")%bool
      then
        let '(neg, r') := readSign r in
        match spanDigits r' with
        | ([], _) => 0
        | (ds, _) => if neg then - digitsValue ds else digitsValue ds
        end
      else 0
  | EmptyString => 0
  end.

Definition readUnsigned (negative : bool) (s : string) : Literal :=
  if String.prefix "Infinity" s then Infinity negative
  else
    let '(ip, r1) := spanDigits s in
    match ip, r1 with
    | [], String "." r2 =>
        match spanDigits r2 with
        | ([], _) => NaN
        | (fp, r3) =>
            Decimal negative (digitsValue fp)
                    (readExponent r3 - Z.of_nat (length fp))
        end
    | [], _ => NaN
    | _, String "." r2 =>
        let '(fp, r3) := spanDigits r2 in
        Decimal negative (digitsValue (ip ++ fp))
                (readExponent r3 - Z.of_nat (length fp))
    | _, _ => Decimal negative (digitsValue ip) (readExponent r1)
    end.

Definition parseFloat (s : string) : Literal :=
  let '(negative, r) := readSign (trimStart s) in readUnsigned negative r.

(** [parseFloat(s) > 0] on IEEE doubles.  The literal is rounded to the
    nearest double, ties to even, so a positive decimal gives a positive
    number exactly when it exceeds [2 ^ -1075], half of the least
    subnormal; [NaN > 0] is false. *)
Definition positive (l : Literal) : bool :=
  match l with
  | NaN => false
  | Infinity negative => negb negative
  | Decimal negative m e =>
      negb negative
      && (if 0 <=? e then 0 <? m else 10 ^ (- e) <? m * 2 ^ 1075)
  end.

Definition parseFloat_gt0 (s : string) : bool := positive (parseFloat s).

End JS.

(** ** Data model *)

(** [interface AgentTask] *)
Record AgentTask : Type := mkTask {
  runId : string;
  projectId : string;
  orgId : string;
  goal : string;
  mode : string
}.

(** The fields of a stored agent run that [executeTask] reads. *)
Record AgentRun : Type := mkRun {
  provider : string;
  model : string
}.

(** The field of a stored organisation that [executeTask] reads. *)
Record Org : Type := mkOrg {
  ownerUserId : string
}.

(** [response.usage]; every field is read through [?.] and [||]. *)
Record Usage : Type := mkUsage {
  inputTokens : option Z;
  outputTokens : option Z;
  costEstimate : option string
}.

(** What [retryService.callWithRetry] resolves to. *)
Record RetryResponse : Type := mkResponse {
  success : bool;
  content : option string;
  usage : option Usage;
  usedProvider : string;
  attempts : Z;
  error : option string
}.

(** One invocation of the progress callback handed to [callWithRetry]:
    [(attempt, error, nextProvider)]. *)
Record Progress : Type := mkProgress {
  attempt : Z;
  progressError : string;
  nextProvider : option string
}.

Inductive Status : Type := Running | Completed | Failed.

(** The two shapes of [outputJson] the queue writes. *)
Inductive OutputJson : Type :=
| OutputResult (content : option string) (usage : option Usage)
               (usedProvider : string) (attempts : Z)
| OutputError (error : string).

(** The second argument of [storage.updateAgentRun]. *)
Record RunPatch : Type := mkPatch {
  status : Status;
  outputJson : option OutputJson;
  patchCostEstimate : option string
}.

Inductive Role : Type := User | Assistant.

Record Message : Type := mkMessage {
  msgProjectId : string;
  agentRunId : string;
  role : Role;
  msgContent : string
}.

Record UsageMetadata : Type := mkMetadata {
  metaAgentRunId : string;
  originalProvider : string;
  metaAttempts : Z
}.

Record UsageRecord : Type := mkUsageRecord {
  usageOrgId : string;
  userId : string;
  usageProvider : string;
  usageModel : string;
  usageInputTokens : Z;
  usageOutputTokens : Z;
  estimatedCostUsd : string;
  metadata : UsageMetadata
}.

Record AuditDetail : Type := mkDetail {
  detailProvider : string;
  detailUsedProvider : string;
  detailModel : string;
  detailCostEstimate : string;
  detailAttempts : Z
}.

Record AuditLog : Type := mkAudit {
  auditOrgId : string;
  auditUserId : option string;
  action : string;
  target : string;
  detailJson : AuditDetail
}.

Inductive LogType : Type := Info | Warning | LogError | Success.

(** ** Observable behaviour: calls on collaborators and emitted events *)

Inductive Call : Type :=
| GetAgentRun (id : string)
| UpdateAgentRun (id : string) (patch : RunPatch)
| CreateMessage (m : Message)
| CallWithRetry (provider prompt model : string)
| TrackCost (orgId cost : string)
| GetOrg (id : string)
| CreateUsageRecord (u : UsageRecord)
| CreateAuditLog (a : AuditLog).

Inductive Value : Type :=
| VUnit
| VRun (run : option AgentRun)
| VOrg (org : option Org)
| VResponse (response : RetryResponse).

(** [Log] is [this.emit("log", runId, {type, message})]; [Returned] is an
    awaited call that resolved, [Raised] one that threw. *)
Inductive Event : Type :=
| Log (runId : string) (type : LogType) (message : string)
| Returned (c : Call) (v : Value)
| Raised (c : Call) (e : JS.Thrown).

(** Outcome of an awaited computation. *)
Inductive Res (A : Type) : Type :=
| Ok (a : A)
| Throw (e : JS.Thrown).
Arguments Ok {A} a.
Arguments Throw {A} e.

(** ** Collaborators

    [storage], [retryService] and [trackCost] are imported modules; the
    queue only sees their interfaces.  Each is a handler over a state [W]
    of the outside world, free to answer or to throw at every call. *)

Class Storage (W : Type) : Type := {
  storage_getAgentRun : string -> W -> Res (option AgentRun) * W;
  storage_updateAgentRun : string -> RunPatch -> W -> Res unit * W;
  storage_createMessage : Message -> W -> Res unit * W;
  storage_getOrg : string -> W -> Res (option Org) * W;
  storage_createUsageRecord : UsageRecord -> W -> Res unit * W;
  storage_createAuditLog : AuditLog -> W -> Res unit * W
}.

(** [callWithRetry] also reports the calls it made to the progress
    callback before it settled. *)
Class RetryService (W : Type) : Type := {
  retry_callWithRetry :
    string -> string -> string -> W -> (list Progress * Res RetryResponse) * W
}.

Class CostGovernor (W : Type) : Type := {
  cost_trackCost : string -> string -> W -> Res unit * W
}.

(** ** The queue object and the event loop around it *)

(** [queue], [processing] and [activeCount] are the private fields of
    [OrchestratorQueue].  [frames] holds the [processQueue] activations that
    are suspended at [await this.executeTask(task)], [timers] counts the
    pending [setTimeout] callbacks, [rejections] collects the values with
    which [processQueue] promises were rejected (nobody awaits them; what
    the runtime does with an unhandled rejection is left out), and
    [admissions] is the history of the tasks taken off the backlog. *)
Record State (W : Type) : Type := mkState {
  queue : list AgentTask;
  processing : bool;
  activeCount : Z;
  world : W;
  trace : list Event;
  frames : list AgentTask;
  timers : nat;
  rejections : list JS.Thrown;
  admissions : list AgentTask
}.
Arguments mkState {W}.
Arguments queue {W}.
Arguments processing {W}.
Arguments activeCount {W}.
Arguments world {W}.
Arguments trace {W}.
Arguments frames {W}.
Arguments timers {W}.
Arguments rejections {W}.
Arguments admissions {W}.

(** [private concurrency = 2] *)
Definition concurrency : Z := 2.

Definition init {W : Type} (w : W) : State W :=
  mkState [] false 0 w [] [] 0%nat [] [].

Section Machine.

Context {W : Type}.

Definition set_queue (q : list AgentTask) (s : State W) : State W :=
  mkState q (processing s) (activeCount s) (world s) (trace s) (frames s)
          (timers s) (rejections s) (admissions s).

Definition set_processing (b : bool) (s : State W) : State W :=
  mkState (queue s) b (activeCount s) (world s) (trace s) (frames s)
          (timers s) (rejections s) (admissions s).

Definition set_activeCount (n : Z) (s : State W) : State W :=
  mkState (queue s) (processing s) n (world s) (trace s) (frames s)
          (timers s) (rejections s) (admissions s).

Definition set_world (w : W) (s : State W) : State W :=
  mkState (queue s) (processing s) (activeCount s) w (trace s) (frames s)
          (timers s) (rejections s) (admissions s).

Definition record (e : Event) (s : State W) : State W :=
  mkState (queue s) (processing s) (activeCount s) (world s)
          (trace s ++ [e]) (frames s) (timers s) (rejections s)
          (admissions s).

Definition record_all (es : list Event) (s : State W) : State W :=
  mkState (queue s) (processing s) (activeCount s) (world s)
          (trace s ++ es) (frames s) (timers s) (rejections s)
          (admissions s).

Definition set_frames (f : list AgentTask) (s : State W) : State W :=
  mkState (queue s) (processing s) (activeCount s) (world s) (trace s) f
          (timers s) (rejections s) (admissions s).

Definition set_timers (n : nat) (s : State W) : State W :=
  mkState (queue s) (processing s) (activeCount s) (world s) (trace s)
          (frames s) n (rejections s) (admissions s).

Definition reject (e : JS.Thrown) (s : State W) : State W :=
  mkState (queue s) (processing s) (activeCount s) (world s) (trace s)
          (frames s) (timers s) (rejections s ++ [e]) (admissions s).

Definition admit_task (t : AgentTask) (s : State W) : State W :=
  mkState (queue s) (processing s) (activeCount s) (world s) (trace s)
          (frames s ++ [t]) (timers s) (rejections s) (admissions s ++ [t]).

(** *** Asynchronous code: state passing with exceptions

    A [throw] keeps the state reached so far. *)
Definition M (A : Type) : Type := State W -> Res A * State W.

Definition ret {A} (a : A) : M A := fun s => (Ok a, s).

Definition bind {A B} (m : M A) (k : A -> M B) : M B :=
  fun s =>
    match m s with
    | (Ok a, s') => k a s'
    | (Throw e, s') => (Throw e, s')
    end.

Definition throw {A} (e : JS.Thrown) : M A := fun s => (Throw e, s).

(** [try { m } catch (error) { handler error }] *)
Definition try_catch {A} (m : M A) (handler : JS.Thrown -> M A) : M A :=
  fun s =>
    match m s with
    | (Ok a, s') => (Ok a, s')
    | (Throw e, s') => handler e s'
    end.

(** [try { m } finally { cleanup }], for a [cleanup] that cannot throw. *)
Definition try_finally {A} (m : M A) (cleanup : State W -> State W) : M A :=
  fun s => let '(r, s') := m s in (r, cleanup s').

(** [this.emit("log", runId, { type, message })] *)
Definition emit (runId : string) (type : LogType) (message : string) : M unit :=
  fun s => (Ok tt, record (Log runId type message) s).

(** [await] of a collaborator call. *)
Definition await {A} (c : Call) (inj : A -> Value) (h : W -> Res A * W) : M A :=
  fun s =>
    match h (world s) with
    | (Ok a, w') => (Ok a, record (Returned c (inj a)) (set_world w' s))
    | (Throw e, w') => (Throw e, record (Raised c e) (set_world w' s))
    end.

End Machine.

Declare Scope js_scope.
Delimit Scope js_scope with js.
Notation "x <- m ;; k" := (bind m (fun x => k))
  (at level 61, m at next level, right associativity) : js_scope.
Notation "m ;; k" := (bind m (fun _ => k))
  (at level 61, right associativity) : js_scope.

(** ** [OrchestratorQueue] *)

Section OrchestratorQueue.

Context {W : Type} {storage : Storage W} {retryService : RetryService W}
        {costGovernor : CostGovernor W}.

Local Open Scope js_scope.

(** The arrow function passed to [callWithRetry] (lines 101-113). *)
Definition onProgress (task : AgentTask) (p : Progress) : Event :=
  match nextProvider p with
  | Some (String _ _ as next) =>
      Log (runId task) Warning
          ("Provider failed, falling back to " ++ next ++ ". Error: "
             ++ progressError p)
  | _ =>
      Log (runId task) Warning
          ("Retry attempt " ++ JS.showNumber (attempt p) ++ ". Error: "
             ++ progressError p)
  end.

(** [await retryService.callWithRetry(provider, prompt, model, callback)]:
    the callback's events are emitted while the call is pending. *)
Definition awaitCallWithRetry (task : AgentTask) (provider prompt model : string)
  : M (W := W) RetryResponse :=
  fun s =>
    let '((ps, r), w') := retry_callWithRetry provider prompt model (world s) in
    let s1 := record_all (map (onProgress task) ps) (set_world w' s) in
    match r with
    | Ok a => (Ok a, record (Returned (CallWithRetry provider prompt model) (VResponse a)) s1)
    | Throw e => (Throw e, record (Raised (CallWithRetry provider prompt model) e) s1)
    end.

Definition getAgentRun (id : string) : M (option AgentRun) :=
  await (GetAgentRun id) VRun (storage_getAgentRun id).

Definition updateAgentRun (id : string) (patch : RunPatch) : M unit :=
  await (UpdateAgentRun id patch) (fun _ => VUnit) (storage_updateAgentRun id patch).

Definition createMessage (m : Message) : M unit :=
  await (CreateMessage m) (fun _ => VUnit) (storage_createMessage m).

Definition getOrg (id : string) : M (option Org) :=
  await (GetOrg id) VOrg (storage_getOrg id).

Definition createUsageRecord (u : UsageRecord) : M unit :=
  await (CreateUsageRecord u) (fun _ => VUnit) (storage_createUsageRecord u).

Definition createAuditLog (a : AuditLog) : M unit :=
  await (CreateAuditLog a) (fun _ => VUnit) (storage_createAuditLog a).

Definition trackCost (orgId cost : string) : M unit :=
  await (TrackCost orgId cost) (fun _ => VUnit) (cost_trackCost orgId cost).

(** [response.usage?.costEstimate || "0"] *)
Definition costEstimateOf (response : RetryResponse) : string :=
  JS.orString (match usage response with
               | Some u => costEstimate u
               | None => None
               end) "0".

(** [response.usage?.inputTokens || 0], [response.usage?.outputTokens || 0] *)
Definition inputTokensOf (response : RetryResponse) : Z :=
  JS.orZero (match usage response with Some u => inputTokens u | None => None end).

Definition outputTokensOf (response : RetryResponse) : Z :=
  JS.orZero (match usage response with Some u => outputTokens u | None => None end).

Definition runningPatch : RunPatch := mkPatch Running None None.

Definition completedPatch (response : RetryResponse) : RunPatch :=
  mkPatch Completed
          (Some (OutputResult (content response) (usage response)
                              (usedProvider response) (attempts response)))
          (Some (costEstimateOf response)).

Definition failedPatch (error : JS.Thrown) : RunPatch :=
  mkPatch Failed (Some (OutputError (JS.messageOf error))) None.

Definition usageRecordOf (task : AgentTask) (run : AgentRun) (org : Org)
           (response : RetryResponse) : UsageRecord :=
  mkUsageRecord (orgId task) (ownerUserId org) (usedProvider response)
                (model run) (inputTokensOf response) (outputTokensOf response)
                (costEstimateOf response)
                (mkMetadata (runId task) (provider run) (attempts response)).

Definition auditLogOf (task : AgentTask) (run : AgentRun)
           (response : RetryResponse) : AuditLog :=
  mkAudit (orgId task) None "agent_run_completed" (runId task)
          (mkDetail (provider run) (usedProvider response) (model run)
                    (costEstimateOf response) (attempts response)).

(** Lines 116-189 of [executeTask], after [callWithRetry] resolved. *)
Definition afterResponse (task : AgentTask) (run : AgentRun)
           (response : RetryResponse) : M unit :=
  if negb (success response)
  then throw (JS.Error (JS.orString (error response) "Provider call failed"))
  else
    (if String.eqb (usedProvider response) (provider run)
     then ret tt
     else emit (runId task) Info
               ("Used fallback provider: " ++ usedProvider response ++ " ("
                  ++ JS.showNumber (attempts response) ++ " total attempts)")) ;;
    createMessage (mkMessage (projectId task) (runId task) Assistant
                             (JS.orString (content response) "")) ;;
    let costEstimate := costEstimateOf response in
    updateAgentRun (runId task) (completedPatch response) ;;
    (if JS.parseFloat_gt0 costEstimate
     then trackCost (orgId task) costEstimate
     else ret tt) ;;
    org <- getOrg (orgId task) ;;
    match org with
    | Some org => createUsageRecord (usageRecordOf task run org response)
    | None => ret tt
    end ;;
    emit (runId task) Success ("Agent run completed. Cost: $" ++ costEstimate) ;;
    createAuditLog (auditLogOf task run response).

(** [private async executeTask(task)] *)
Definition executeTask (task : AgentTask) : M unit :=
  run <- getAgentRun (runId task) ;;
  match run with
  | None => throw (JS.Error "Agent run not found")
  | Some run =>
      emit (runId task) Info
           ("Starting agent run with " ++ provider run ++ " (" ++ model run ++ ")") ;;
      updateAgentRun (runId task) runningPatch ;;
      createMessage (mkMessage (projectId task) (runId task) User (goal task)) ;;
      emit (runId task) Info
           ("Calling " ++ provider run ++ " with model " ++ model run
              ++ " (with retry/fallback)...") ;;
      response <- awaitCallWithRetry task (provider run) (goal task) (model run) ;;
      afterResponse task run response
  end.

(** [processQueue] up to its [await] (lines 36-47): the guard, the
    [shift], the two counters, and the activation left suspended. *)
Definition processQueue (s : State W) : State W :=
  if (processing s || (activeCount s >=? concurrency))%bool then s
  else
    match queue s with
    | [] => s
    | task :: rest =>
        admit_task task
          (set_processing true
             (set_activeCount (activeCount s + 1) (set_queue rest s)))
    end.

(** The [catch] block (lines 50-59). *)
Definition processQueue_catch (task : AgentTask) (error : JS.Thrown) : M unit :=
  emit (runId task) LogError ("Task failed: " ++ JS.messageOf error) ;;
  updateAgentRun (runId task) (failedPatch error).

(** The [finally] block (lines 60-68). *)
Definition processQueue_finally (s : State W) : State W :=
  let s1 := set_processing false (set_activeCount (activeCount s - 1) s) in
  if (0 <? length (queue s1))%nat then set_timers (S (timers s1)) s1 else s1.

(** [processQueue] from its [await] on (lines 48-68). *)
Definition processQueue_resume (task : AgentTask) : M unit :=
  try_finally
    (try_catch (executeTask task) (processQueue_catch task))
    processQueue_finally.

(** A suspended activation runs to its end; a rejection of the promise it
    returned is kept. *)
Definition settle (task : AgentTask) (s : State W) : State W :=
  match processQueue_resume task s with
  | (Ok _, s') => s'
  | (Throw e, s') => reject e s'
  end.

(** [enqueue(task)] *)
Definition enqueue (task : AgentTask) (s : State W) : State W :=
  processQueue
    (record (Log (runId task) Info "Task queued")
            (set_queue (queue s ++ [task]) s)).

(** *** The event loop

    The macrotasks that touch the queue: a caller's [enqueue], the
    completion of the [i]-th suspended activation, and a timer set by a
    [finally] block.  The awaits inside [executeTask] touch no field of the
    queue, so an activation is resumed in one step. *)
Inductive Step : Type :=
| Enqueue (task : AgentTask)
| Resume (i : nat)
| Timer.

Definition remove_nth {A} (i : nat) (l : list A) : list A :=
  firstn i l ++ skipn (S i) l.

Definition step (s : State W) (st : Step) : State W :=
  match st with
  | Enqueue task => enqueue task s
  | Resume i =>
      match nth_error (frames s) i with
      | Some task => settle task (set_frames (remove_nth i (frames s)) s)
      | None => s
      end
  | Timer =>
      match timers s with
      | S n => processQueue (set_timers n s)
      | O => s
      end
  end.

Definition exec (steps : list Step) (s : State W) : State W :=
  fold_left step steps s.

(** The tasks handed to [enqueue], in call order. *)
Definition enqueued (steps : list Step) : list AgentTask :=
  flat_map (fun st => match st with Enqueue t => [t] | _ => [] end) steps.

End OrchestratorQueue.

(** ** Scripted collaborators

    A fixed outside world for concrete runs: what the store holds for the
    run and the organisation, what the executor answers, and which calls
    throw. *)
Record Script : Type := mkScript {
  script_run : option AgentRun;
  script_org : option Org;
  script_progress : list Progress;
  script_response : RetryResponse;
  script_fault : Call -> option JS.Thrown
}.

Definition scripted {A} (c : Call) (a : A) (w : Script) : Res A * Script :=
  match script_fault w c with
  | Some e => (Throw e, w)
  | None => (Ok a, w)
  end.

#[export] Instance Script_Storage : Storage Script := {|
  storage_getAgentRun id w := scripted (GetAgentRun id) (script_run w) w;
  storage_updateAgentRun id patch w := scripted (UpdateAgentRun id patch) tt w;
  storage_createMessage m w := scripted (CreateMessage m) tt w;
  storage_getOrg id w := scripted (GetOrg id) (script_org w) w;
  storage_createUsageRecord u w := scripted (CreateUsageRecord u) tt w;
  storage_createAuditLog a w := scripted (CreateAuditLog a) tt w
|}.

#[export] Instance Script_RetryService : RetryService Script := {|
  retry_callWithRetry provider prompt model w :=
    let '(r, w') := scripted (CallWithRetry provider prompt model)
                             (script_response w) w in
    ((script_progress w, r), w')
|}.

#[export] Instance Script_CostGovernor : CostGovernor Script := {|
  cost_trackCost orgId cost w := scripted (TrackCost orgId cost) tt w
|}.

Definition no_fault : Call -> option JS.Thrown := fun _ => None.

Definition task1 : AgentTask := mkTask "run-1" "proj-1" "org-1" "Summarise the report" "single".
Definition task2 : AgentTask := mkTask "run-2" "proj-1" "org-1" "Draft the reply" "single".
Definition task3 : AgentTask := mkTask "run-3" "proj-2" "org-2" "Review the patch" "single".

Definition run_openai : AgentRun := mkRun "openai" "gpt-4o".
Definition org_acme : Org := mkOrg "user-7".

Definition response_ok : RetryResponse :=
  mkResponse true (Some "Done.") (Some (mkUsage (Some 120) (Some 45) (Some "0.0021")))
             "openai" 1 None.

Definition response_free : RetryResponse :=
  mkResponse true (Some "Done.") (Some (mkUsage (Some 120) (Some 45) (Some "0")))
             "openai" 1 None.

Definition response_failed : RetryResponse :=
  mkResponse false None None "openai" 6 (Some "All providers failed").

Definition happy : Script := mkScript (Some run_openai) (Some org_acme) [] response_ok no_fault.

Definition free_of_charge : Script :=
  mkScript (Some run_openai) (Some org_acme) [] response_free no_fault.


Definition missing_run : Script :=
  mkScript None (Some org_acme) [] response_ok no_fault.

Definition executor_failed : Script :=
  mkScript (Some run_openai) (Some org_acme)
           [mkProgress 3 "timeout" (Some "anthropic")] response_failed no_fault.

(** The audit log cannot be written. *)
Definition audit_down : Script :=
  mkScript (Some run_openai) (Some org_acme) [] response_ok
           (fun c => match c with
                     | CreateAuditLog _ => Some (JS.Error "audit log unavailable")
                     | _ => None
                     end).

(** The run is missing and the store refuses the write of [failed]. *)
Definition store_down_on_failed : Script :=
  mkScript None (Some org_acme) [] response_ok
           (fun c => match c with
                     | UpdateAgentRun _ (mkPatch Failed _ _) =>
                         Some (JS.Error "store unavailable")
                     | _ => None
                     end).

(** The executor reports a failure and the store refuses the write of
    [failed]. *)
Definition executor_failed_store_down : Script :=
  mkScript (Some run_openai) (Some org_acme) [] response_failed
           (fun c => match c with
                     | UpdateAgentRun _ (mkPatch Failed _ _) =>
                         Some (JS.Error "store unavailable")
                     | _ => None
                     end).

(** ** The retry/fallback executor *)

Module Executor.

(** Modelled from the spec: the provider transport, [call(provider, prompt,
    model)], answers with content and usage or throws; its errors are
    either transient (timeout, rate limit, connection failure) or terminal
    for that provider. *)
Inductive Attempt : Type :=
| Served (content : string) (inputTokens outputTokens : Z)
| TransientFailure (error : string)
| TerminalFailure (error : string).

(** Modelled from the spec: the configuration of the retry service, whose
    module is not among the sources: the attempt ceiling of each provider, the fixed fallback order that follows a primary provider, the
    pricing table, and the transport, which answers the [n]-th call made to
    a provider (counted from 0). *)
Record Config : Type := mkConfig {
  ceiling : string -> nat;
  fallbackOrder : string -> list string;
  pricing : string -> string -> Z -> Z -> string;
  transport : string -> string -> string -> nat -> Attempt
}.

(** Modelled from the spec: how the retry policy ends on one provider. *)
Inductive ProviderResult : Type :=
| Answered (content : string) (inputTokens outputTokens : Z)
| Exhausted (lastError : string).

(** Modelled from the spec: what a call of the executor leaves: the outcome,
    the calls it made to [onProgress], and the provider of each attempt, in
    order. *)
Record Report : Type := mkReport {
  outcome : RetryResponse;
  progress : list Progress;
  attempted : list string
}.

Section Policy.

Variable cfg : Config.
Variables prompt model : string.

(** Modelled from the spec: the retry policy on one provider, part of
    [retryService.callWithRetry], whose module is not among the sources.
    With [left] attempts left of the ceiling and [made] attempts made so far
    on all providers, call the provider; a transient failure is retried
    while the ceiling allows, after a report to [onProgress] with no next
    provider; a terminal failure is not retried.  Returns the result, the
    number of attempts made on this provider and the progress reports. *)
Fixpoint retryProvider (p : string) (left try made : nat)
  : ProviderResult * nat * list Progress :=
  match left with
  | O => (Exhausted "no attempt allowed", O, [])
  | S left' =>
      match transport cfg p prompt model try with
      | Served c i o => (Answered c i o, 1%nat, [])
      | TerminalFailure e => (Exhausted e, 1%nat, [])
      | TransientFailure e =>
          match left' with
          | O => (Exhausted e, 1%nat, [])
          | S _ =>
              let '(r, n, ps) := retryProvider p left' (S try) (S made) in
              (r, S n, mkProgress (Z.of_nat (S made)) e None :: ps)
          end
      end
  end.

(** Modelled from the spec: the fallback chain of
    [retryService.callWithRetry].  Provider [p] gets the retry policy; when
    it is exhausted the next provider of the fallback order is reported to
    [onProgress] and tried in the same way; the first success, or the
    exhaustion of the last provider, ends the call.  [attempts] is
    cumulative over all providers. *)
Fixpoint tryProviders (p : string) (rest : list string) (made : nat) : Report :=
  let '(r, n, ps) := retryProvider p (ceiling cfg p) 0 made in
  match r with
  | Answered c i o =>
      mkReport
        (mkResponse true (Some c)
                    (Some (mkUsage (Some i) (Some o) (Some (pricing cfg p model i o))))
                    p (Z.of_nat (made + n)) None)
        ps (repeat p n)
  | Exhausted e =>
      match rest with
      | [] =>
          mkReport (mkResponse false None None p (Z.of_nat (made + n)) (Some e))
                   ps (repeat p n)
      | next :: rest' =>
          let rep := tryProviders next rest' (made + n) in
          mkReport (outcome rep)
                   (ps ++ mkProgress (Z.of_nat (made + n)) e (Some next)
                       :: progress rep)
                   (repeat p n ++ attempted rep)
      end
  end.

(** Modelled from the spec: [retryService.callWithRetry(primaryProvider,
    prompt, model, onProgress)]. *)
Definition callWithRetry (primary : string) : Report :=
  tryProviders primary (fallbackOrder cfg primary) 0.

End Policy.

(** Two providers, three attempts each; [openai] times out twice and then
    answers, [anthropic] always answers. *)
Definition flaky : Config :=
  mkConfig (fun _ => 3%nat)
           (fun primary => if String.eqb primary "openai"
                           then ["anthropic"] else ["openai"])
           (fun _ _ _ _ => "0.0021")
           (fun p _ _ n =>
              if String.eqb p "openai"
              then if (n <? 2)%nat then TransientFailure "timeout"
                   else Served "Done." 120 45
              else Served "Done." 120 45).

(** One provider that always times out, with a ceiling of two attempts, and
    a fallback that answers at once. *)
Definition primary_down : Config :=
  mkConfig (fun p => if String.eqb p "openai" then 2%nat else 3%nat)
           (fun _ => ["anthropic"])
           (fun _ _ _ _ => "0.0040")
           (fun p _ _ _ =>
              if String.eqb p "openai" then TransientFailure "timeout"
              else Served "Done." 200 80).

(** No provider ever answers. *)
Definition all_down : Config :=
  mkConfig (fun p => if String.eqb p "openai" then 2%nat else 3%nat)
           (fun _ => ["anthropic"])
           (fun _ _ _ _ => "0")
           (fun p _ _ _ =>
              if String.eqb p "openai" then TransientFailure "timeout"
              else TransientFailure "rate limited").

End Executor.

(** ** Reading a trace *)

(** The events added between two states of one run of the machine. *)
Definition newEvents {W : Type} (s s' : State W) : list Event :=
  skipn (length (trace s)) (trace s').

(** Every [updateAgentRun] the queue issued, acknowledged or not. *)
Definition updateCalls (tr : list Event) : list (string * RunPatch) :=
  flat_map (fun e => match e with
                     | Returned (UpdateAgentRun id p) _ => [(id, p)]
                     | Raised (UpdateAgentRun id p) _ => [(id, p)]
                     | _ => []
                     end) tr.

(** The statuses the store acknowledged for run [id], in order. *)
Definition statusWrites (id : string) (tr : list Event) : list Status :=
  flat_map (fun e => match e with
                     | Returned (UpdateAgentRun id' p) _ =>
                         if String.eqb id' id then [status p] else []
                     | _ => []
                     end) tr.

(** Every invocation of [trackCost]. *)
Definition trackCostCalls (tr : list Event) : list (string * string) :=
  flat_map (fun e => match e with
                     | Returned (TrackCost o c) _ => [(o, c)]
                     | Raised (TrackCost o c) _ => [(o, c)]
                     | _ => []
                     end) tr.

(** Usage and audit records the store acknowledged. *)
Definition usageRecords (tr : list Event) : list UsageRecord :=
  flat_map (fun e => match e with
                     | Returned (CreateUsageRecord u) _ => [u]
                     | _ => []
                     end) tr.

Definition auditLogs (tr : list Event) : list AuditLog :=
  flat_map (fun e => match e with
                     | Returned (CreateAuditLog a) _ => [a]
                     | _ => []
                     end) tr.

(** What the reads returned. *)
Definition loadedRuns (tr : list Event) : list (option AgentRun) :=
  flat_map (fun e => match e with
                     | Returned (GetAgentRun _) (VRun r) => [r]
                     | _ => []
                     end) tr.

Definition orgLookups (tr : list Event) : list (option Org) :=
  flat_map (fun e => match e with
                     | Returned (GetOrg _) (VOrg o) => [o]
                     | _ => []
                     end) tr.

Definition responses (tr : list Event) : list RetryResponse :=
  flat_map (fun e => match e with
                     | Returned (CallWithRetry _ _ _) (VResponse r) => [r]
                     | _ => []
                     end) tr.

(** The messages of the [error] log events of run [id]. *)
Definition errorLogs (id : string) (tr : list Event) : list string :=
  flat_map (fun e => match e with
                     | Log id' LogError m => if String.eqb id' id then [m] else []
                     | _ => []
                     end) tr.

Definition Status_eqb (a b : Status) : bool :=
  match a, b with
  | Running, Running | Completed, Completed | Failed, Failed => true
  | _, _ => false
  end.

(** The events that follow the first acknowledged write of status [st] to
    run [id], when there is one. *)
Fixpoint afterStatus (st : Status) (id : string) (tr : list Event)
  : option (list Event) :=
  match tr with
  | [] => None
  | Returned (UpdateAgentRun id' p) _ :: rest =>
      if (String.eqb id' id && Status_eqb (status p) st)%bool
      then Some rest
      else afterStatus st id rest
  | _ :: rest => afterStatus st id rest
  end.

(** ** Relations between states used by the proofs *)

(** [s'] is [s] with events appended and the outside world moved on; no
    field of the queue differs. *)
Definition extends {W : Type} (s s' : State W) : Prop :=
  queue s' = queue s /\ processing s' = processing s
  /\ activeCount s' = activeCount s /\ frames s' = frames s
  /\ timers s' = timers s /\ rejections s' = rejections s
  /\ admissions s' = admissions s
  /\ exists new, trace s' = (trace s ++ new)%list.

(** The flag, the counter and the suspended activations agree. *)
Definition coherent {W : Type} (s : State W) : Prop :=
  if processing s
  then activeCount s = 1 /\ length (frames s) = 1%nat
  else activeCount s = 0 /\ frames s = [].

(** A computation that only appends events and talks to the world. *)
Definition framed {W A : Type} (m : M (W := W) A) : Prop :=
  forall s, extends s (snd (m s)).

(** ** Concrete runs used below *)

(** The events that follow the write of [completed] when the audit log
    is down. *)
Definition audit_down_post : list Event :=
  Eval cbv in
    match afterStatus Completed "run-1"
                      (newEvents (init audit_down) (settle task1 (init audit_down)))
    with
    | Some post => post
    | None => []
    end.

(** The state in which the run of [task1] on the [happy] script ends. *)
Definition happy_end : State Script :=
  Eval cbv in snd (executeTask task1 (init happy)).

(** ** Further readings of a trace *)

(** The messages the store acknowledged. *)
Definition messages (tr : list Event) : list Message :=
  flat_map (fun e => match e with
                     | Returned (CreateMessage m) _ => [m]
                     | _ => []
                     end) tr.

(** Every call of the executor, whether it resolved or threw, with its
    arguments [(provider, prompt, model)]. *)
Definition executorCalls (tr : list Event) : list (string * string * string) :=
  flat_map (fun e => match e with
                     | Returned (CallWithRetry p g m) _ => [(p, g, m)]
                     | Raised (CallWithRetry p g m) _ => [(p, g, m)]
                     | _ => []
                     end) tr.

(** The acknowledged updates of run [id] to [completed]. *)
Definition completedPatches (id : string) (tr : list Event) : list RunPatch :=
  flat_map (fun e => match e with
                     | Returned (UpdateAgentRun id' p) _ =>
                         if (String.eqb id' id && Status_eqb (status p) Completed)%bool
                         then [p] else []
                     | _ => []
                     end) tr.

Definition isExecutorCall (e : Event) : bool :=
  match e with
  | Returned (CallWithRetry _ _ _) _ => true
  | Raised (CallWithRetry _ _ _) _ => true
  | _ => false
  end.

(** The events that precede the first event satisfying [p]. *)
Fixpoint eventsBefore (p : Event -> bool) (tr : list Event)
  : option (list Event) :=
  match tr with
  | [] => None
  | e :: rest =>
      if p e then Some [] else option_map (cons e) (eventsBefore p rest)
  end.

(** The call is made on behalf of [task]: it names the task's run, project,
    goal or organisation. *)
Definition callConcerns (task : AgentTask) (c : Call) : bool :=
  match c with
  | GetAgentRun id => String.eqb id (runId task)
  | UpdateAgentRun id _ => String.eqb id (runId task)
  | CreateMessage m =>
      String.eqb (agentRunId m) (runId task)
      && String.eqb (msgProjectId m) (projectId task)
  | CallWithRetry _ g _ => String.eqb g (goal task)
  | TrackCost o _ => String.eqb o (orgId task)
  | GetOrg o => String.eqb o (orgId task)
  | CreateUsageRecord u =>
      String.eqb (usageOrgId u) (orgId task)
      && String.eqb (metaAgentRunId (metadata u)) (runId task)
  | CreateAuditLog a =>
      String.eqb (auditOrgId a) (orgId task)
      && String.eqb (target a) (runId task)
  end.

Definition concerns (task : AgentTask) (e : Event) : bool :=
  match e with
  | Log id _ _ => String.eqb id (runId task)
  | Returned c _ => callConcerns task c
  | Raised c _ => callConcerns task c
  end.

Definition userMessage (task : AgentTask) : Message :=
  mkMessage (projectId task) (runId task) User (goal task).

Definition assistantMessage (task : AgentTask) (response : RetryResponse) : Message :=
  mkMessage (projectId task) (runId task) Assistant
            (JS.orString (content response) "").

(** ** Schedules and the invariant of progress *)

(** The schedule that lets the running task finish and the timer fire,
    [n] times over. *)
Definition drain (n : nat) : list Step :=
  concat (repeat [Resume 0%nat; Timer] n).

(** The queue is coherent and, when no task runs, either the backlog is
    empty or a timer for the next admission is pending. *)
Definition steady {W : Type} (s : State W) : Prop :=
  coherent s
  /\ (processing s = false -> queue s = [] \/ (0 < timers s)%nat).

(** ** The SCBE integration layer *)

Module SCBE.

(** [type SacredTongue = 'ko' | 'av' | 'ru' | 'ca' | 'um' | 'dr'] *)
Inductive SacredTongue : Type := ko | av | ru | ca | um | dr.

(** The string a tongue is, as a template literal prints it. *)
Definition tongueName (t : SacredTongue) : string :=
  match t with
  | ko => "ko" | av => "av" | ru => "ru"
  | ca => "ca" | um => "um" | dr => "dr"
  end.

Definition SS1_PREFIXES : list string :=
  ["za"; "be"; "ci"; "do"; "ef"; "ga"; "hi"; "jo";
   "ka"; "le"; "mi"; "no"; "pa"; "qu"; "re"; "si"].

Definition SS1_SUFFIXES : list string :=
  ["th"; "ar"; "en"; "is"; "or"; "un"; "el"; "at";
   "im"; "os"; "ur"; "an"; "et"; "il"; "op"; "us"].

(** [ToInt32] on an integral number: the operand of [>>] and [&]. *)
Definition toInt32 (z : Z) : Z := (z + 2 ^ 31) mod 2 ^ 32 - 2 ^ 31.

(** [`${arr[i]}`] for an integer [i]: an index outside the array gives
    [undefined], printed "undefined". *)
Definition element (arr : list string) (i : Z) : string :=
  if i <? 0 then "undefined" else nth (Z.to_nat i) arr "undefined".

(** [function encodeByteToSS1(byte)] *)
Definition encodeByteToSS1 (byte : Z) : string :=
  let prefix := element SS1_PREFIXES (Z.shiftr (toInt32 byte) 4) in
  let suffix := element SS1_SUFFIXES (Z.land (toInt32 byte) 15) in
  prefix ++ "'" ++ suffix.

(** [Array.from(data)] for a [Buffer]: its bytes as numbers. *)
Definition bytesOf (data : list Byte.byte) : list Z :=
  map (fun b => Z.of_N (Byte.to_N b)) data.

(** [export function encodeSacredTongue(data, tongue)] *)
Definition encodeSacredTongue (data : list Byte.byte) (tongue : SacredTongue) : string :=
  let encoded := String.concat "" (map encodeByteToSS1 (bytesOf data)) in
  tongueName tongue ++ ":" ++ encoded.

(** [type GovernanceTier = 1 | 2 | 3 | 4] *)
Inductive GovernanceTier : Type := Tier1 | Tier2 | Tier3 | Tier4.

Definition tierNumber (t : GovernanceTier) : Z :=
  match t with Tier1 => 1 | Tier2 => 2 | Tier3 => 3 | Tier4 => 4 end.

(** [export function getRequiredTongues(tier)] *)
Definition getRequiredTongues (tier : GovernanceTier) : list SacredTongue :=
  match tier with
  | Tier1 => [ko]
  | Tier2 => [ko; ru]
  | Tier3 => [ko; ru; um]
  | Tier4 => [ko; ru; um; dr]
  end.

(** [interface GovernanceDecision] *)
Record GovernanceDecision : Type := mkDecision {
  tier : GovernanceTier;
  requiredTongues : list SacredTongue;
  approved : bool;
  signatures : list string;
  timestamp : Z
}.

(** [export function evaluateGovernance(operation, signatures, tier)];
    [now] is what [Date.now()] returns. *)
Definition evaluateGovernance (now : Z) (operation : string)
           (signatures : list string) (tier : GovernanceTier)
  : GovernanceDecision :=
  let requiredTongues := getRequiredTongues tier in
  let approved := (length requiredTongues <=? length signatures)%nat in
  mkDecision tier requiredTongues approved signatures now.

(** *** [evaluateSecurity] and [scbeMiddleware] *)

(** [s.split(':')[0]]: the part of [s] before its first colon. *)
Fixpoint beforeColon (s : string) : string :=
  match s with
  | EmptyString => EmptyString
  | String c r => if Ascii.eqb c ":" then EmptyString else String c (beforeColon r)
  end.

(** [toLowerCase] on the letters A-Z; other bytes are kept.  Outside ASCII
    the built-in maps more code points, none of them to a string of the
    letters used as keys below. *)
Definition lowerAscii (c : ascii) : ascii :=
  let n := nat_of_ascii c in
  if ((65 <=? n) && (n <=? 90))%nat then ascii_of_nat (n + 32) else c.

Fixpoint toLowerCase (s : string) : string :=
  match s with
  | EmptyString => EmptyString
  | String c r => String (lowerAscii c) (toLowerCase r)
  end.

(** What a property read on the object literal [riskFactors] gives: one of
    its numbers, a member inherited from [Object.prototype], or
    [undefined]. *)
Inductive Looked : Type :=
| Number (n : Z)
| Inherited
| Undefined.

(** [riskFactors[key]] *)
Definition riskFactors (key : string) : Looked :=
  if String.eqb key "read" then Number 1
  else if String.eqb key "list" then Number 1
  else if String.eqb key "create" then Number 2
  else if String.eqb key "update" then Number 3
  else if String.eqb key "delete" then Number 4
  else if String.eqb key "execute" then Number 5
  else if String.eqb key "admin" then Number 6
  else if existsb (String.eqb key)
            ["constructor"; "__proto__"; "hasOwnProperty"; "isPrototypeOf";
             "propertyIsEnumerable"; "toLocaleString"; "toString"; "valueOf";
             "__defineGetter__"; "__defineSetter__"; "__lookupGetter__";
             "__lookupSetter__"]
       then Inherited
       else Undefined.

(** [x || 3]: [undefined] and the numbers 0 are falsy. *)
Definition orThree (x : Looked) : Looked :=
  match x with
  | Number n => if n =? 0 then Number 3 else Number n
  | Inherited => Inherited
  | Undefined => Number 3
  end.

(** [distance <= n]: an inherited function or object converts to [NaN],
    and every comparison with [NaN] is false. *)
Definition leq (distance : Looked) (n : Z) : bool :=
  match distance with
  | Number d => d <=? n
  | _ => false
  end.

(** [interface SCBESecurityContext] *)
Record SCBESecurityContext : Type := mkContext {
  ctxUserId : string;
  operation : string;
  resourceId : option string;
  metadata : option (list (string * option string))
}.

Section Security.

(** The floating-point and cryptographic parts are left to the runtime:
    [F] is the type of numbers, [getSecurityLevel] the multiplier and the
    level computed with [Math.pow], and [envelopeOf] the SS1 blob built
    with [Date.now], [JSON.stringify] and [crypto] from the context and the
    level. *)
Variable F : Type.
Variable getSecurityLevel : Looked -> F * string.
Variable envelopeOf : SCBESecurityContext -> string -> string.

(** [interface SCBESecurityResult] *)
Record SCBESecurityResult : Type := mkResult {
  allowed : bool;
  securityLevel : string;
  amplification : F;
  governanceTier : GovernanceTier;
  envelope : option string
}.

(** [export function evaluateSecurity(context)] *)
Definition evaluateSecurity (context : SCBESecurityContext) : SCBESecurityResult :=
  let operationType := toLowerCase (beforeColon (operation context)) in
  let distance := orThree (riskFactors operationType) in
  let '(multiplier, level) := getSecurityLevel distance in
  let tier :=
    if leq distance 1 then Tier1
    else if leq distance 2 then Tier2
    else if leq distance 4 then Tier3
    else Tier4 in
  mkResult true level multiplier tier (Some (envelopeOf context level)).

(** The fields of an Express request that the middleware reads. *)
Record Request : Type := mkRequest {
  reqUserId : option string;
  method : string;
  path : string;
  paramsId : option string;
  ip : option string;
  userAgent : option string
}.

(** What the middleware does with a request: answer 403 with a JSON body,
    or attach the result as [req.scbe] and call [next()]. *)
Inductive Handled : Type :=
| Forbidden (error required current : string)
| Next (scbe : SCBESecurityResult).

Definition orAnonymous (x : option string) : string :=
  match x with
  | Some EmptyString => "anonymous"
  | Some s => s
  | None => "anonymous"
  end.

Definition showTier (t : GovernanceTier) : string :=
  "Tier " ++ NilZero.string_of_int (Z.to_int (tierNumber t)).

Definition contextOf (req : Request) : SCBESecurityContext :=
  mkContext (orAnonymous (reqUserId req))
            (method req ++ ":" ++ path req)
            (paramsId req)
            (Some [("ip", ip req); ("userAgent", userAgent req)]).

(** [export function scbeMiddleware(minTier = 1)], applied to a request. *)
Definition scbeMiddleware (minTier : GovernanceTier) (req : Request) : Handled :=
  let context := contextOf req in
  let result := evaluateSecurity context in
  if tierNumber (governanceTier result) <? tierNumber minTier
  then Forbidden "Insufficient security clearance"
                 (showTier minTier) (showTier (governanceTier result))
  else Next result.

End Security.

Arguments mkResult {F}.
Arguments allowed {F}.
Arguments securityLevel {F}.
Arguments amplification {F}.
Arguments governanceTier {F}.
Arguments envelope {F}.
Arguments Forbidden {F}.
Arguments Next {F}.
Arguments evaluateSecurity {F}.
Arguments scbeMiddleware {F}.

(** *** An inverse of the encoding, used to show that it loses nothing *)

Fixpoint indexOf (x : string) (l : list string) : option N :=
  match l with
  | [] => None
  | y :: r => if String.eqb x y then Some 0%N
              else option_map N.succ (indexOf x r)
  end.

Definition decodeToken (a b c d e : ascii) : option Byte.byte :=
  if Ascii.eqb c "'"
  then match indexOf (String a (String b EmptyString)) SS1_PREFIXES,
             indexOf (String d (String e EmptyString)) SS1_SUFFIXES with
       | Some i, Some j => Byte.of_N (16 * i + j)
       | _, _ => None
       end
  else None.

Fixpoint decodeTokens (s : string) : option (list Byte.byte) :=
  match s with
  | EmptyString => Some []
  | String a (String b (String c (String d (String e rest)))) =>
      match decodeToken a b c d e, decodeTokens rest with
      | Some x, Some xs => Some (x :: xs)
      | _, _ => None
      end
  | _ => None
  end.

(** Two requests to delete, from different users and on different paths,
    and a stand-in for the runtime's part. *)
Definition sample_delete : Request :=
  mkRequest (Some "user-7") "DELETE" "/api/projects/12" (Some "12")
            (Some "10.0.0.8") None.

Definition sample_delete_other : Request :=
  mkRequest None "DELETE" "/api/orgs/3/members/9" (Some "9") None
            (Some "curl/8.5").

Definition sample_level (distance : Looked) : unit * string := (tt, "HIGH").

Definition sample_envelope (context : SCBESecurityContext) (level : string)
  : string := "SS1|kid=" ++ ctxUserId context.

End SCBE.

(** * Properties *)

Example parseFloat_zero : JS.parseFloat "0" = JS.Decimal false 0 0.
Proof. reflexivity. Qed.

Example parseFloat_cost : JS.parseFloat "0.0123" = JS.Decimal false 123 (-4).
Proof. reflexivity. Qed.

Example parseFloat_exp : JS.parseFloat "  -1.5e+3xyz" = JS.Decimal true 15 2.
Proof. reflexivity. Qed.

Example parseFloat_dangling_exp : JS.parseFloat "7e" = JS.Decimal false 7 0.
Proof. reflexivity. Qed.

Example parseFloat_dot : JS.parseFloat "." = JS.NaN.
Proof. reflexivity. Qed.

Example parseFloat_gt0_examples :
  JS.parseFloat_gt0 "0" = false /\ JS.parseFloat_gt0 "0.00" = false
  /\ JS.parseFloat_gt0 "0.000045" = true /\ JS.parseFloat_gt0 "-3" = false
  /\ JS.parseFloat_gt0 "abc" = false /\ JS.parseFloat_gt0 "1e-400" = false
  /\ JS.parseFloat_gt0 "5e-324" = true.
Proof. vm_compute. repeat split. Qed.

(** ** Asynchronous code leaves the queue's fields alone *)

Section Frame.

Context {W : Type} {storage : Storage W} {retryService : RetryService W}
        {costGovernor : CostGovernor W}.

Lemma extends_refl (s : State W) : extends s s.
Proof.
  unfold extends. repeat split. exists []. now rewrite app_nil_r.
Qed.

Lemma extends_trans (s1 s2 s3 : State W) :
  extends s1 s2 -> extends s2 s3 -> extends s1 s3.
Proof.
  unfold extends.
  intros (q1 & p1 & a1 & f1 & t1 & r1 & d1 & n1 & e1)
         (q2 & p2 & a2 & f2 & t2 & r2 & d2 & n2 & e2).
  repeat split; try congruence.
  exists (n1 ++ n2)%list. rewrite e2, e1. now rewrite app_assoc.
Qed.

Lemma extends_record (e : Event) (s : State W) : extends s (record e s).
Proof. unfold extends. cbn. repeat split. now exists [e]. Qed.

Lemma extends_record_all (es : list Event) (s : State W) :
  extends s (record_all es s).
Proof. unfold extends. cbn. repeat split. now exists es. Qed.

Lemma extends_set_world (w : W) (s : State W) : extends s (set_world w s).
Proof. unfold extends. cbn. repeat split. exists []. now rewrite app_nil_r. Qed.

Lemma framed_ret {A} (a : A) : framed (W := W) (ret a).
Proof. intros s. apply extends_refl. Qed.

Lemma framed_throw {A} (e : JS.Thrown) : framed (W := W) (throw (A := A) e).
Proof. intros s. apply extends_refl. Qed.

Lemma framed_emit id ty msg : framed (W := W) (emit id ty msg).
Proof. intros s. apply extends_record. Qed.

Lemma framed_await {A} c (inj : A -> Value) (h : W -> Res A * W) :
  framed (W := W) (await c inj h).
Proof.
  intros s. unfold await.
  destruct (h (world s)) as [[a | e] w']; cbn;
    (eapply extends_trans; [apply extends_set_world | apply extends_record]).
Qed.

Lemma framed_bind {A B} (m : M A) (k : A -> M B) :
  framed (W := W) m -> (forall a, framed (W := W) (k a)) ->
  framed (W := W) (bind m k).
Proof.
  intros Hm Hk s. unfold bind. specialize (Hm s).
  destruct (m s) as [[a | e] s1]; cbn in *; [| exact Hm].
  eapply extends_trans; [exact Hm | apply Hk].
Qed.

Lemma framed_try_catch {A} (m : M A) (h : JS.Thrown -> M A) :
  framed (W := W) m -> (forall e, framed (W := W) (h e)) ->
  framed (W := W) (try_catch m h).
Proof.
  intros Hm Hh s. unfold try_catch. specialize (Hm s).
  destruct (m s) as [[a | e] s1]; cbn in *; [exact Hm |].
  eapply extends_trans; [exact Hm | apply Hh].
Qed.

Lemma framed_awaitCallWithRetry task p g m :
  framed (W := W) (awaitCallWithRetry task p g m).
Proof.
  intros s. unfold awaitCallWithRetry.
  destruct (retry_callWithRetry p g m (world s)) as [[ps [a | e]] w']; cbn;
    (eapply extends_trans; [apply extends_set_world |]);
    (eapply extends_trans; [apply extends_record_all | apply extends_record]).
Qed.

Create HintDb framed.

#[local] Hint Resolve framed_ret framed_throw framed_emit framed_await
  framed_awaitCallWithRetry : framed.

Ltac framed :=
  repeat first
    [ apply framed_bind; [| intros ?]
    | apply framed_try_catch; [| intros ?]
    | match goal with
      | |- framed (if ?b then _ else _) => destruct b
      | |- framed (match ?o with Some _ => _ | None => _ end) => destruct o
      end
    | solve [auto with framed] ].

Lemma framed_afterResponse task run response :
  framed (W := W) (afterResponse task run response).
Proof.
  unfold afterResponse, createMessage, updateAgentRun, trackCost, getOrg,
    createUsageRecord, createAuditLog.
  framed.
Qed.

Lemma framed_executeTask task : framed (W := W) (executeTask task).
Proof.
  unfold executeTask, getAgentRun, updateAgentRun, createMessage.
  framed. apply framed_afterResponse.
Qed.

Lemma framed_catch task error : framed (W := W) (processQueue_catch task error).
Proof. unfold processQueue_catch, updateAgentRun. framed. Qed.

Lemma framed_guarded task :
  framed (W := W) (try_catch (executeTask task) (processQueue_catch task)).
Proof.
  apply framed_try_catch; [apply framed_executeTask | intros; apply framed_catch].
Qed.

End Frame.

(** ** Admission control *)

Section Admission.

Context {W : Type} {storage : Storage W} {retryService : RetryService W}
        {costGovernor : CostGovernor W}.

Lemma finally_fields (s : State W) :
  let s' := processQueue_finally s in
  queue s' = queue s /\ processing s' = false
  /\ activeCount s' = activeCount s - 1 /\ frames s' = frames s
  /\ admissions s' = admissions s
  /\ timers s' = (if (0 <? length (queue s))%nat then S (timers s) else timers s)
  /\ trace s' = trace s /\ rejections s' = rejections s.
Proof.
  unfold processQueue_finally.
  destruct (queue s) as [| t q] eqn:Q; cbn; rewrite Q; cbn;
    repeat split; assumption.
Qed.

(** What the [finally] block leaves behind, whatever the task did. *)
Lemma settle_fields task (s : State W) :
  let s' := settle task s in
  queue s' = queue s /\ processing s' = false
  /\ activeCount s' = activeCount s - 1 /\ frames s' = frames s
  /\ admissions s' = admissions s
  /\ timers s' = (if (0 <? length (queue s))%nat then S (timers s) else timers s).
Proof.
  unfold settle, processQueue_resume, try_finally.
  pose proof (framed_guarded task s) as H.
  destruct (try_catch (executeTask task) (processQueue_catch task) s)
    as [r s1]; cbn in H.
  destruct H as (q & p & a & f & t & _ & d & _).
  destruct (finally_fields s1) as (q' & p' & a' & f' & d' & t' & _).
  rewrite q, t in t'.
  destruct r as [[] | e]; unfold reject;
    cbn [queue processing activeCount frames admissions timers];
    repeat split; congruence.
Qed.

(** Once a task has ended, the timer set by its [finally] block admits the
    head of the backlog. *)
Lemma timer_admits_next task (s : State W) t rest :
  queue s = t :: rest -> activeCount s = 1 ->
  let s1 := step (settle task s) Timer in
  queue s1 = rest /\ frames s1 = (frames s ++ [t])%list
  /\ admissions s1 = (admissions s ++ [t])%list /\ processing s1 = true.
Proof.
  intros Q A.
  destruct (settle_fields task s) as (q & p & a & f & d & t').
  rewrite Q in t'. cbn in t'.
  cbn [step]. rewrite t'. unfold processQueue.
  cbn [processing activeCount queue set_timers].
  rewrite p, a, A, q, Q. cbn. rewrite f, d. repeat split.
Qed.

Lemma processQueue_idle (s : State W) :
  processing s = true -> processQueue s = s.
Proof. unfold processQueue. now intros ->. Qed.

Lemma coherent_processQueue (s : State W) :
  coherent s -> coherent (processQueue s).
Proof.
  unfold coherent, processQueue.
  destruct (processing s) eqn:P; cbn; [now rewrite P |].
  intros [A F]. rewrite A. cbn.
  destruct (queue s) as [| task rest]; cbn.
  - now rewrite P.
  - rewrite F. cbn. split; reflexivity.
Qed.

Lemma coherent_step (s : State W) (st : Step) :
  coherent s -> coherent (step s st).
Proof.
  intros C. destruct st as [task | i |]; cbn.
  - apply coherent_processQueue. exact C.
  - destruct (nth_error (frames s) i) as [task |] eqn:N; [| exact C].
    unfold coherent in C. destruct (processing s) eqn:P.
    + destruct C as [A F].
      destruct (frames s) as [| t [| t' l]] eqn:Fr; try discriminate.
      destruct i as [| i]; [| destruct i; discriminate]. cbn.
      destruct (settle_fields task (set_frames [] s)) as (_ & p & a & f & _).
      unfold coherent. rewrite p, a, f. cbn. split; [lia | reflexivity].
    + destruct C as [_ F]. rewrite F in N. destruct i; discriminate.
  - destruct (timers s) as [| n]; [exact C |].
    apply coherent_processQueue. exact C.
Qed.

Lemma coherent_exec (steps : list Step) (s : State W) :
  coherent s -> coherent (exec steps s).
Proof.
  revert s. induction steps as [| st steps IH]; intros s C; cbn; [exact C |].
  apply IH. now apply coherent_step.
Qed.

Lemma coherent_init (w : W) : coherent (init w).
Proof. unfold coherent. cbn. split; reflexivity. Qed.

(** The backlog and the admission history only ever move a task from the
    head of the one to the end of the other. *)
Lemma processQueue_backlog (s : State W) :
  (admissions (processQueue s) ++ queue (processQueue s)
   = admissions s ++ queue s)%list.
Proof.
  unfold processQueue.
  destruct (processing s || (activeCount s >=? concurrency))%bool; [reflexivity |].
  destruct (queue s) as [| task rest] eqn:Q; cbn; rewrite ?Q; [reflexivity |].
  now rewrite <- app_assoc.
Qed.

Lemma step_backlog (s : State W) (st : Step) :
  (admissions (step s st) ++ queue (step s st)
   = admissions s ++ queue s ++ enqueued [st])%list.
Proof.
  destruct st as [task | i |]; cbn.
  - unfold enqueue. rewrite processQueue_backlog. reflexivity.
  - rewrite app_nil_r.
    destruct (nth_error (frames s) i) as [task |]; [| reflexivity].
    destruct (settle_fields task (set_frames (remove_nth i (frames s)) s))
      as (q & _ & _ & _ & d & _).
    rewrite q, d. reflexivity.
  - rewrite app_nil_r. destruct (timers s) as [| n]; [reflexivity |].
    rewrite processQueue_backlog. reflexivity.
Qed.

Lemma exec_backlog (steps : list Step) (s : State W) :
  (admissions (exec steps s) ++ queue (exec steps s)
   = admissions s ++ queue s ++ enqueued steps)%list.
Proof.
  revert s. induction steps as [| st steps IH]; intros s.
  - cbn. now rewrite !app_nil_r.
  - change (exec (st :: steps) s) with (exec steps (step s st)).
    rewrite IH, app_assoc, step_backlog.
    unfold enqueued. cbn [flat_map]. rewrite app_nil_r.
    now rewrite <- !app_assoc.
Qed.




(** C4: whatever calls to [enqueue], completions and timers occur, the
    number of tasks admitted and not yet finished never exceeds the
    [concurrency] constant, 2. *)
Theorem active_tasks_within_concurrency (w : W) (steps : list Step) :
  Z.of_nat (length (frames (exec steps (init w)))) <= concurrency
  /\ activeCount (exec steps (init w)) <= concurrency.
Proof.
  pose proof (coherent_exec steps (init w) (coherent_init w)) as C.
  unfold coherent, concurrency in *.
  destruct (processing (exec steps (init w))); destruct C as [A F];
    rewrite A, F; cbn; lia.
Qed.


(** C10: at most one task is ever in execution, although [concurrency] is
    2: [activeCount] counts the suspended activations and never exceeds 1,
    [processing] is set exactly while one is suspended, and while it is set
    [processQueue] returns without admitting anything. *)
Theorem at_most_one_task_executes (w : W) (steps : list Step) :
  let s := exec steps (init w) in
  (length (frames s) <= 1)%nat
  /\ activeCount s = Z.of_nat (length (frames s))
  /\ activeCount s <= 1 < concurrency
  /\ (if processing s
      then length (frames s) = 1%nat /\ processQueue s = s
      else frames s = []).
Proof.
  intros s. subst s.
  pose proof (coherent_exec steps (init w) (coherent_init w)) as C.
  unfold coherent, concurrency in *.
  destruct (processing (exec steps (init w))) eqn:P; destruct C as [A F];
    rewrite A, F; cbn; repeat split; try lia.
  now apply processQueue_idle.
Qed.

End Admission.

(** ** Running one task *)

Section TaskRun.

Context {W : Type} {storage : Storage W} {retryService : RetryService W}
        {costGovernor : CostGovernor W}.

Lemma newEvents_app (s s' : State W) (new : list Event) :
  trace s' = (trace s ++ new)%list -> newEvents s s' = new.
Proof.
  intros E. unfold newEvents. rewrite E.
  rewrite skipn_app, skipn_all, Nat.sub_diag. reflexivity.
Qed.

Lemma trace_newEvents (s s' : State W) :
  extends s s' -> trace s' = (trace s ++ newEvents s s')%list.
Proof.
  intros (_ & _ & _ & _ & _ & _ & _ & new & E).
  now rewrite (newEvents_app s s' new E).
Qed.

(** The callback only emits [warning] events: no reading of a trace that
    ignores them sees the progress reports. *)
Lemma flat_map_progress {A} (g : Event -> list A) task ps rest :
  (forall id m, g (Log id Warning m) = []) ->
  flat_map g (map (onProgress task) ps ++ rest)%list = flat_map g rest.
Proof.
  intros G. induction ps as [| p ps IH]; cbn; [reflexivity |].
  rewrite IH. unfold onProgress.
  destruct (nextProvider p) as [[| c n] |]; now rewrite G.
Qed.

Lemma afterStatus_progress st id task ps rest :
  afterStatus st id (map (onProgress task) ps ++ rest)%list
  = afterStatus st id rest.
Proof.
  induction ps as [| p ps IH]; cbn; [reflexivity |].
  rewrite <- IH. unfold onProgress.
  destruct (nextProvider p) as [[| c n] |]; reflexivity.
Qed.

Lemma afterStatus_app st id l l' :
  afterStatus st id (l ++ l')%list
  = match afterStatus st id l with
    | Some post => Some (post ++ l')%list
    | None => afterStatus st id l'
    end.
Proof.
  induction l as [| e l IH]; cbn; [reflexivity |].
  destruct e as [? ? ? | [] ? | ? ?]; try exact IH.
  destruct (String.eqb id0 id && Status_eqb (status patch) st)%bool;
    [reflexivity | exact IH].
Qed.

(** *** Inversion of the monadic steps *)

Lemma bind_inv {A B} (m : M A) (k : A -> M B) (s : State W) r s' :
  bind m k s = (r, s') ->
  (exists a s1, m s = (Ok a, s1) /\ k a s1 = (r, s'))
  \/ (exists e, m s = (Throw e, s') /\ r = Throw e).
Proof.
  unfold bind. destruct (m s) as [[a | e] s1]; intros H.
  - left. now exists a, s1.
  - right. exists e. now injection H as <- <-.
Qed.

Lemma await_inv {A} c (inj : A -> Value) h (s : State W) r s' :
  await c inj h s = (r, s') ->
  (exists a w', r = Ok a
                /\ s' = record (Returned c (inj a)) (set_world w' s))
  \/ (exists e w', r = Throw e
                   /\ s' = record (Raised c e) (set_world w' s)).
Proof.
  unfold await. destruct (h (world s)) as [[a | e] w']; intros H;
    injection H as <- <-.
  - left. now exists a, w'.
  - right. now exists e, w'.
Qed.

Lemma awaitCallWithRetry_inv task p g m (s : State W) r s' :
  awaitCallWithRetry task p g m s = (r, s') ->
  exists ps w',
    (exists a, r = Ok a
       /\ s' = record (Returned (CallWithRetry p g m) (VResponse a))
                      (record_all (map (onProgress task) ps) (set_world w' s)))
    \/ (exists e, r = Throw e
       /\ s' = record (Raised (CallWithRetry p g m) e)
                      (record_all (map (onProgress task) ps) (set_world w' s))).
Proof.
  unfold awaitCallWithRetry.
  destruct (retry_callWithRetry p g m (world s)) as [[ps [a | e]] w'];
    intros H; injection H as <- <-; exists ps, w'.
  - left. now exists a.
  - right. now exists e.
Qed.

End TaskRun.

(** Follow one run of monadic code along every path it can take. *)
Ltac minv :=
  repeat
    (match goal with
     | H : bind _ _ _ = (_, _) |- _ =>
         apply bind_inv in H;
         destruct H as [(? & ? & ? & ?) | (? & ? & ?)]
     | H : await _ _ _ _ = (_, _) |- _ =>
         apply await_inv in H;
         destruct H as [(? & ? & ? & ?) | (? & ? & ? & ?)]
     | H : awaitCallWithRetry _ _ _ _ _ = (_, _) |- _ =>
         apply awaitCallWithRetry_inv in H;
         destruct H as (? & ? & [(? & ? & ?) | (? & ? & ?)])
     | H : emit _ _ _ _ = (_, _) |- _ => unfold emit in H
     | H : ret _ _ = (_, _) |- _ => unfold ret in H
     | H : throw _ _ = (_, _) |- _ => unfold throw in H
     | H : (if ?b then _ else _) _ = (_, _) |- _ => destruct b eqn:?
     | H : match ?o with Some _ => _ | None => _ end _ = (_, _) |- _ =>
         destruct o eqn:?
     | H : (_, _) = (_, _) |- _ => injection H as ? ?
     | H : Ok _ = Ok _ |- _ => injection H as ?
     | H : Throw _ = Throw _ |- _ => injection H as ?
     | H : Ok _ = Throw _ |- _ => discriminate H
     | H : Throw _ = Ok _ |- _ => discriminate H
     | H : ?x = _ |- _ => is_var x; subst x
     | H : _ = ?x |- _ => is_var x; subst x
     end).

(** Replace [newEvents s s'] by the events the run appended. *)
Ltac events :=
  repeat erewrite newEvents_app
    by (cbn [trace record set_world record_all]; rewrite <- ?app_assoc;
        cbn [app]; reflexivity).

Ltac events_in H :=
  repeat erewrite newEvents_app in H
    by (cbn [trace record set_world record_all]; rewrite <- ?app_assoc;
        cbn [app]; reflexivity).

Ltac run_task H :=
  unfold executeTask, getAgentRun, updateAgentRun, createMessage in H;
  minv;
  unfold afterResponse, updateAgentRun, createMessage, trackCost, getOrg,
    createUsageRecord, createAuditLog in *;
  minv.

Ltac observe :=
  unfold responses, trackCostCalls, usageRecords, auditLogs, loadedRuns,
    orgLookups, updateCalls, statusWrites, errorLogs;
  cbn [flat_map app];
  rewrite ?flat_map_progress by reflexivity;
  cbn [flat_map app];
  rewrite ?String.eqb_refl;
  cbn [flat_map app status].

Section TaskOutcome.

Context {W : Type} {storage : Storage W} {retryService : RetryService W}
        {costGovernor : CostGovernor W}.

(** Everything a run that resolved has done. *)
Lemma executeTask_resolved (s : State W) task s' :
  executeTask task s = (Ok tt, s') ->
  exists run response org,
    loadedRuns (newEvents s s') = [Some run]
    /\ responses (newEvents s s') = [response]
    /\ success response = true
    /\ orgLookups (newEvents s s') = [org]
    /\ updateCalls (newEvents s s')
       = [(runId task, runningPatch); (runId task, completedPatch response)]
    /\ statusWrites (runId task) (newEvents s s') = [Running; Completed]
    /\ trackCostCalls (newEvents s s')
       = (if JS.parseFloat_gt0 (costEstimateOf response)
          then [(orgId task, costEstimateOf response)] else [])
    /\ usageRecords (newEvents s s')
       = match org with
         | Some org => [usageRecordOf task run org response]
         | None => []
         end
    /\ auditLogs (newEvents s s') = [auditLogOf task run response]
    /\ errorLogs (runId task) (newEvents s s') = [].
Proof.
  intros H. run_task H.
  all: events; observe.
  all: match goal with
       | E : negb ?b = false |- _ => apply negb_false_iff in E
       end.
  all: do 3 eexists; repeat split;
    first [ reflexivity
          | assumption
          | match goal with
            | E : JS.parseFloat_gt0 _ = _ |- _ => rewrite E; reflexivity
            end ].
Qed.

(** [executeTask] only updates the run of its own task, and its write of
    [completed] is its last update. *)
Lemma executeTask_updates (s : State W) task r s' :
  executeTask task s = (r, s') ->
  Forall (fun c => fst c = runId task) (updateCalls (newEvents s s'))
  /\ forall post,
      afterStatus Completed (runId task) (newEvents s s') = Some post ->
      updateCalls post = [].
Proof.
  intros H. run_task H.
  all: split;
    [ events; observe; repeat constructor
    | intros post A; events_in A; cbn [afterStatus] in A;
      rewrite ?afterStatus_progress in A; cbn [afterStatus] in A;
      rewrite ?String.eqb_refl in A; cbn in A; try discriminate A;
      injection A as <-; reflexivity ].
Qed.

(** A run whose executor answered with a failure stops there. *)
Lemma executeTask_executor_failed (s : State W) task r s' response :
  executeTask task s = (r, s') ->
  responses (newEvents s s') = [response] ->
  success response = false ->
  r = Throw (JS.Error (JS.orString (error response) "Provider call failed"))
  /\ exists run pre,
      newEvents s s'
      = (pre ++ [Returned (CallWithRetry (provider run) (goal task) (model run))
                          (VResponse response)])%list
      /\ updateCalls pre = [(runId task, runningPatch)]
      /\ usageRecords pre = [] /\ auditLogs pre = []
      /\ errorLogs (runId task) pre = []
      /\ statusWrites (runId task) pre = [Running].
Proof.
  intros H R F. run_task H.
  all: events_in R; events; revert R; observe; intros R; try discriminate R.
  all: injection R as ->.
  all: try match goal with
           | E : negb (success ?r) = false |- _ =>
               apply negb_false_iff in E; congruence
           end.
  split; [reflexivity |].
  match goal with
  | |- context [Returned (GetAgentRun _) (VRun (Some ?a))] => exists a
  end.
  eexists (_ :: _ :: _ :: _ :: _ :: map (onProgress task) _)%list.
  cbn [app]. split; [reflexivity |].
  rewrite <- (app_nil_r (map (onProgress task) _)).
  observe. repeat split.
Qed.

(** How [processQueue] ends, by the way [executeTask] ended. *)
Lemma settle_events (s : State W) task r s1 :
  executeTask task s = (r, s1) ->
  match r with
  | Ok _ =>
      newEvents s (settle task s) = newEvents s s1
      /\ rejections (settle task s) = rejections s
  | Throw e =>
      exists call,
        newEvents s (settle task s)
        = (newEvents s s1
             ++ [Log (runId task) LogError ("Task failed: " ++ JS.messageOf e);
                 call])%list
        /\ ((call = Returned (UpdateAgentRun (runId task) (failedPatch e)) VUnit
             /\ rejections (settle task s) = rejections s)
            \/ (exists e',
                   call = Raised (UpdateAgentRun (runId task) (failedPatch e)) e'
                   /\ rejections (settle task s)
                      = (rejections s ++ [e'])%list))
  end.
Proof.
  intros E.
  pose proof (framed_executeTask task s) as F. rewrite E in F. cbn in F.
  pose proof (trace_newEvents s s1 F) as T.
  destruct F as (_ & _ & _ & _ & _ & R & _).
  unfold settle, processQueue_resume, try_finally, try_catch. rewrite E.
  destruct r as [[] | e].
  - destruct (finally_fields s1) as (_ & _ & _ & _ & _ & _ & T' & R').
    split; [| congruence].
    apply newEvents_app. now rewrite T'.
  - unfold processQueue_catch, bind, emit, updateAgentRun, await.
    cbn [world record].
    destruct (storage_updateAgentRun (runId task) (failedPatch e) (world s1))
      as [[[] | e'] w'];
      match goal with
      | |- context [processQueue_finally ?x] =>
          destruct (finally_fields x) as (_ & _ & _ & _ & _ & _ & T' & R')
      end;
      cbn [trace rejections record set_world reject] in T', R' |- *;
      eexists.
    + split; [| left; split; [reflexivity | now transitivity (rejections s1)]].
      apply newEvents_app. etransitivity; [exact T' |].
      rewrite T, <- !app_assoc. reflexivity.
    + split; [| right; eexists; split; [reflexivity |]].
      * apply newEvents_app. etransitivity; [exact T' |].
        rewrite T, <- !app_assoc. reflexivity.
      * rewrite <- R. f_equal. exact R'.
Qed.

End TaskOutcome.

(** ** What one task does *)

Section TaskClaims.

Context {W : Type} {storage : Storage W} {retryService : RetryService W}
        {costGovernor : CostGovernor W}.

(** C3 (as amended): a run that completes invokes [trackCost] once, for
    the task's organisation and with the cost estimate of the executor's
    outcome, exactly when [parseFloat] of that estimate is positive; when
    the estimate is zero, absent or not a number, [trackCost] is not
    invoked.  The estimate is [usage.costEstimate], or ["0"] without one. *)
Theorem trackCost_once_when_cost_positive (s : State W) task s' :
  executeTask task s = (Ok tt, s') ->
  exists response,
    responses (newEvents s s') = [response]
    /\ success response = true
    /\ trackCostCalls (newEvents s s')
       = (if JS.parseFloat_gt0 (costEstimateOf response)
          then [(orgId task, costEstimateOf response)] else []).
Proof.
  intros H.
  destruct (executeTask_resolved s task s' H)
    as (run & response & org & _ & R & S & _ & _ & _ & T & _).
  now exists response.
Qed.


Lemma updateCalls_app l l' :
  updateCalls (l ++ l') = (updateCalls l ++ updateCalls l')%list.
Proof. apply flat_map_app. Qed.

(** C1 (as amended): after the store has acknowledged [completed] for a
    run, the rest of the processing of that task issues no further update
    when [executeTask] resolves; when a later step of [executeTask] throws,
    the [catch] block of [processQueue] issues one more update of that run,
    to [failed] with the error message as output, and that update is the
    last event of the task.  Every update issued while a task is processed
    is for the run of that task. *)
Theorem completed_rewritten_only_by_catch (s : State W) task post :
  afterStatus Completed (runId task) (newEvents s (settle task s)) = Some post ->
  match fst (executeTask task s) with
  | Ok _ => updateCalls post = []
  | Throw e =>
      exists pre call,
        post = (pre ++ [Log (runId task) LogError
                            ("Task failed: " ++ JS.messageOf e); call])%list
        /\ updateCalls pre = []
        /\ updateCalls [call] = [(runId task, failedPatch e)]
  end
  /\ Forall (fun c => fst c = runId task)
            (updateCalls (newEvents s (settle task s))).
Proof.
  intros A.
  destruct (executeTask task s) as [r s1] eqn:E.
  pose proof (settle_events s task r s1 E) as S.
  destruct (executeTask_updates s task r s1 E) as [Own Last].
  destruct r as [[] | e]; cbn [fst].
  - destruct S as [S _]. rewrite S in A |- *.
    split; [exact (Last post A) | exact Own].
  - destruct S as (call & S & C). rewrite S, afterStatus_app in A.
    rewrite S, updateCalls_app.
    assert (U : updateCalls
                  [Log (runId task) LogError ("Task failed: " ++ JS.messageOf e);
                   call]
                = [(runId task, failedPatch e)]).
    { destruct C as [[-> _] | (e' & -> & _)]; reflexivity. }
    split.
    + destruct (afterStatus Completed (runId task) (newEvents s s1))
        as [pre |] eqn:A1.
      * injection A as <-. exists pre, call. split; [reflexivity |].
        split; [exact (Last pre eq_refl) | exact U].
      * destruct C as [[-> _] | (e' & -> & _)]; cbn in A;
          rewrite ?andb_false_r in A; discriminate A.
    + apply Forall_app. split; [exact Own |].
      rewrite U. repeat constructor.
Qed.

(** C2 (as amended): when [getAgentRun] finds no run, the task ends with an
    [error] log event and with the [catch] block's update of that run id to
    [failed], carrying the message "Agent run not found"; nothing else is
    issued: no [running] or [completed] update, no message, no call of the
    executor or of [trackCost], no Usage and no Audit record.  The
    [finally] block then frees the slot and, when the backlog is not empty,
    sets the timer for the next admission. *)
Theorem missing_run_only_marked_failed (s : State W) task w' :
  storage_getAgentRun (runId task) (world s) = (Ok None, w') ->
  let s' := settle task s in
  (exists call,
      newEvents s s'
      = [Returned (GetAgentRun (runId task)) (VRun None);
         Log (runId task) LogError "Task failed: Agent run not found";
         call]
      /\ updateCalls [call]
         = [(runId task,
             mkPatch Failed (Some (OutputError "Agent run not found")) None)])
  /\ usageRecords (newEvents s s') = []
  /\ auditLogs (newEvents s s') = []
  /\ queue s' = queue s /\ processing s' = false
  /\ activeCount s' = activeCount s - 1
  /\ timers s' = (if (0 <? length (queue s))%nat then S (timers s) else timers s)
  /\ (forall t rest,
         queue s = t :: rest -> activeCount s = 1 ->
         frames (step s' Timer) = (frames s ++ [t])%list).
Proof.
  intros G s'.
  assert (E : executeTask task s
              = (Throw (JS.Error "Agent run not found"),
                 record (Returned (GetAgentRun (runId task)) (VRun None))
                        (set_world w' s))).
  { unfold executeTask, bind, getAgentRun, await. now rewrite G. }
  destruct (settle_events s task _ _ E) as (call & S & C).
  rewrite (newEvents_app s (record _ (set_world w' s))
                         [Returned (GetAgentRun (runId task)) (VRun None)])
    in S by reflexivity.
  fold s' in S. cbn [app JS.messageOf] in S.
  destruct (settle_fields task s) as (q & p & a & _ & _ & t).
  assert (U : updateCalls [call]
              = [(runId task,
                  mkPatch Failed (Some (OutputError "Agent run not found")) None)]).
  { destruct C as [[-> _] | (e' & -> & _)]; reflexivity. }
  split; [exists call; split; [exact S | exact U] |].
  rewrite S.
  repeat split; try assumption;
    try (destruct C as [[-> _] | (e' & -> & _)]; reflexivity).
  intros t0 rest Q A. now apply (timer_admits_next task s t0 rest).
Qed.


Lemma responses_app l l' :
  responses (l ++ l') = (responses l ++ responses l')%list.
Proof. apply flat_map_app. Qed.

(** C6 (as amended): when the executor answers with [success = false], the
    queue emits an [error] log event for the run and issues the update of
    the run to [failed] whose output carries the executor's error
    description (or "Provider call failed" when the outcome has none);
    these are the last two events of the task, the only updates issued are
    [running] and [failed], and no Usage record and no Audit record is
    created.  When the store acknowledges the update the run is
    transitioned: the acknowledged statuses are [running], [failed] and the
    promise of [processQueue] resolves.  When the store throws on it the
    run is left at [running] and the exception rejects that promise. *)
Theorem executor_failure_marks_run_failed (s : State W) task response :
  responses (newEvents s (settle task s)) = [response] ->
  success response = false ->
  let msg := JS.orString (error response) "Provider call failed" in
  let new := newEvents s (settle task s) in
  (exists run pre call,
      new = (pre ++ [Returned (CallWithRetry (provider run) (goal task) (model run))
                              (VResponse response);
                     Log (runId task) LogError ("Task failed: " ++ msg);
                     call])%list
      /\ updateCalls [call]
         = [(runId task, mkPatch Failed (Some (OutputError msg)) None)]
      /\ ((call = Returned (UpdateAgentRun
                              (runId task)
                              (mkPatch Failed (Some (OutputError msg)) None))
                           VUnit
           /\ statusWrites (runId task) new = [Running; Failed]
           /\ rejections (settle task s) = rejections s)
          \/ (exists e',
                 call = Raised (UpdateAgentRun
                                  (runId task)
                                  (mkPatch Failed (Some (OutputError msg)) None))
                               e'
                 /\ statusWrites (runId task) new = [Running]
                 /\ rejections (settle task s) = (rejections s ++ [e'])%list)))
  /\ updateCalls new
     = [(runId task, runningPatch);
        (runId task, mkPatch Failed (Some (OutputError msg)) None)]
  /\ errorLogs (runId task) new = ["Task failed: " ++ msg]
  /\ usageRecords new = [] /\ auditLogs new = [].
Proof.
  intros R F msg new. subst new.
  destruct (executeTask task s) as [r s1] eqn:E.
  pose proof (settle_events s task r s1 E) as S.
  assert (R1 : responses (newEvents s s1) = [response]).
  { destruct r as [[] | e].
    - destruct S as [S _]. now rewrite <- S.
    - destruct S as (call & S & C). rewrite S, responses_app in R.
      destruct C as [[-> _] | (e' & -> & _)]; cbn in R;
        now rewrite app_nil_r in R. }
  destruct (executeTask_executor_failed s task r s1 response E R1 F)
    as (-> & run & pre & N & U & Us & Au & Er & St).
  destruct S as (call & S & C). cbn [JS.messageOf] in S, C. fold msg in S, C.
  rewrite S, N, <- app_assoc. cbn [app].
  assert (UC : updateCalls [call]
               = [(runId task, mkPatch Failed (Some (OutputError msg)) None)]).
  { destruct C as [[-> _] | (e' & -> & _)]; reflexivity. }
  split.
  - exists run, pre, call. split; [reflexivity |]. split; [exact UC |].
    unfold statusWrites in *. rewrite !flat_map_app, St. cbn [flat_map app].
    destruct C as [[-> Rj] | (e' & -> & Rj)].
    + left. rewrite String.eqb_refl. repeat split. exact Rj.
    + right. exists e'. repeat split. exact Rj.
  - unfold updateCalls, errorLogs, usageRecords, auditLogs in *.
    rewrite !flat_map_app, U, Us, Au, Er. cbn [flat_map app].
    rewrite String.eqb_refl.
    destruct C as [[-> _] | (e' & -> & _)]; repeat split.
Qed.

(** C8 (as amended): whatever a step of [executeTask] throws is caught by
    [processQueue]: an [error] log event is emitted and the update of the
    run to [failed] is issued, and the promise of [processQueue] resolves.
    The update issued inside the [catch] block is not guarded: when it
    throws, its exception rejects that promise.  In every case the
    [finally] block has run: the slot is free again and a timer for the
    next admission is set when the backlog is not empty. *)
Theorem exceptions_contained_up_to_catch (s : State W) task :
  let s' := settle task s in
  (queue s' = queue s /\ processing s' = false
   /\ activeCount s' = activeCount s - 1
   /\ timers s'
      = (if (0 <? length (queue s))%nat then S (timers s) else timers s)
   /\ (forall t rest,
          queue s = t :: rest -> activeCount s = 1 ->
          frames (step s' Timer) = (frames s ++ [t])%list))
  /\ match executeTask task s with
     | (Ok _, s1) =>
         newEvents s s' = newEvents s s1 /\ rejections s' = rejections s
     | (Throw e, s1) =>
         exists call,
           newEvents s s'
           = (newEvents s s1
                ++ [Log (runId task) LogError ("Task failed: " ++ JS.messageOf e);
                    call])%list
           /\ ((call = Returned (UpdateAgentRun (runId task) (failedPatch e)) VUnit
                /\ rejections s' = rejections s)
               \/ (exists e',
                      call = Raised (UpdateAgentRun (runId task) (failedPatch e)) e'
                      /\ rejections s' = (rejections s ++ [e'])%list))
     end.
Proof.
  intros s'. subst s'. split.
  - destruct (settle_fields task s) as (q & p & a & _ & _ & t).
    repeat split; try assumption.
    intros t0 rest Q A. now apply (timer_admits_next task s t0 rest).
  - destruct (executeTask task s) as [r s1] eqn:E.
    exact (settle_events s task r s1 E).
Qed.

End TaskClaims.

(** ** Concrete runs *)

(** Three tasks enqueued at once: one runs, two wait. *)
Example three_tasks_enqueued :
  let s := exec [Enqueue task1; Enqueue task2; Enqueue task3] (init happy) in
  frames s = [task1] /\ queue s = [task2; task3]
  /\ activeCount s = 1 /\ processing s = true /\ timers s = 0%nat.
Proof. vm_compute. repeat split. Qed.

(** They run one after the other, each admitted by the timer of the one
    before. *)
Example three_tasks_drained :
  let s := exec [Enqueue task1; Enqueue task2; Enqueue task3;
                 Resume 0%nat; Timer; Resume 0%nat; Timer; Resume 0%nat]
                (init happy) in
  admissions s = [task1; task2; task3] /\ frames s = [] /\ queue s = []
  /\ activeCount s = 0 /\ processing s = false /\ timers s = 0%nat
  /\ statusWrites "run-1" (trace s) = [Running; Completed]
  /\ statusWrites "run-2" (trace s) = [Running; Completed]
  /\ statusWrites "run-3" (trace s) = [Running; Completed]
  /\ rejections s = [].
Proof. vm_compute. repeat split. Qed.

(** A timer that fires while a task runs admits nothing. *)
Example timer_while_busy :
  let s := exec [Enqueue task1; Enqueue task2; Resume 0%nat; Enqueue task3;
                 Timer] (init happy) in
  frames s = [task2] /\ queue s = [task3] /\ activeCount s = 1.
Proof. vm_compute. repeat split. Qed.

(** C1, refuted as stated: with the audit log down, the store acknowledges
    [completed] for the run and then, from the [catch] block, [failed]. *)
Lemma completed_run_becomes_failed :
  let s := exec [Enqueue task1; Resume 0%nat] (init audit_down) in
  statusWrites "run-1" (trace s) = [Running; Completed; Failed]
  /\ updateCalls audit_down_post
     = [("run-1",
         mkPatch Failed (Some (OutputError "audit log unavailable")) None)].
Proof. vm_compute. split; reflexivity. Qed.

Lemma completed_rewritten_only_by_catch_witness :
  afterStatus Completed (runId task1)
              (newEvents (init audit_down) (settle task1 (init audit_down)))
  = Some audit_down_post
  /\ exists pre call,
      audit_down_post
      = (pre ++ [Log "run-1" LogError "Task failed: audit log unavailable"; call])%list
      /\ updateCalls pre = []
      /\ updateCalls [call]
         = [("run-1", failedPatch (JS.Error "audit log unavailable"))].
Proof.
  split; [reflexivity |].
  exact (proj1 (completed_rewritten_only_by_catch (init audit_down) task1
                  audit_down_post eq_refl)).
Defined.

(** C2, refuted as stated: for a run the store does not hold, the queue
    issues an update of that run id to [failed]. *)
Lemma missing_run_is_updated :
  let s := exec [Enqueue task1; Resume 0%nat] (init missing_run) in
  loadedRuns (trace s) = [None]
  /\ updateCalls (trace s)
     = [("run-1", mkPatch Failed (Some (OutputError "Agent run not found")) None)]
  /\ statusWrites "run-1" (trace s) = [Failed].
Proof. vm_compute. repeat split. Qed.

Lemma missing_run_only_marked_failed_witness :
  storage_getAgentRun (runId task1) (world (init missing_run))
  = (Ok None, missing_run)
  /\ usageRecords (newEvents (init missing_run) (settle task1 (init missing_run))) = []
  /\ processing (settle task1 (init missing_run)) = false.
Proof.
  assert (G : storage_getAgentRun (runId task1) (world (init missing_run))
              = (Ok None, missing_run)) by reflexivity.
  split; [exact G |].
  destruct (missing_run_only_marked_failed (init missing_run) task1 missing_run G)
    as (_ & U & _ & _ & P & _).
  split; [exact U | exact P].
Defined.

(** C3, refuted as stated: a run whose cost estimate is "0" completes and
    [trackCost] is not invoked. *)
Lemma zero_cost_run_skips_trackCost :
  let s := exec [Enqueue task1; Resume 0%nat] (init free_of_charge) in
  statusWrites "run-1" (trace s) = [Running; Completed]
  /\ responses (trace s) = [response_free]
  /\ length (auditLogs (trace s)) = 1%nat
  /\ trackCostCalls (trace s) = [].
Proof. vm_compute. repeat split. Qed.

Lemma trackCost_once_when_cost_positive_witness :
  executeTask task1 (init happy) = (Ok tt, happy_end)
  /\ exists response,
      responses (newEvents (init happy) happy_end) = [response]
      /\ success response = true
      /\ trackCostCalls (newEvents (init happy) happy_end)
         = (if JS.parseFloat_gt0 (costEstimateOf response)
            then [(orgId task1, costEstimateOf response)] else []).
Proof.
  split; [reflexivity |].
  exact (trackCost_once_when_cost_positive (init happy) task1 happy_end eq_refl).
Defined.



(** C6, refuted as stated: the executor reports a failure and the store
    throws on the update to [failed]; the run is left at [running] and the
    exception leaves [processQueue]. *)
Lemma executor_failure_leaves_run_running :
  let s := exec [Enqueue task1; Resume 0%nat] (init executor_failed_store_down) in
  responses (trace s) = [response_failed]
  /\ success response_failed = false
  /\ statusWrites "run-1" (trace s) = [Running]
  /\ rejections s = [JS.Error "store unavailable"].
Proof. vm_compute. repeat split. Qed.

Lemma executor_failure_marks_run_failed_witness :
  let new := newEvents (init executor_failed) (settle task1 (init executor_failed)) in
  responses new = [response_failed]
  /\ updateCalls new
     = [("run-1", runningPatch);
        ("run-1", mkPatch Failed (Some (OutputError "All providers failed")) None)]
  /\ errorLogs "run-1" new = ["Task failed: All providers failed"]
  /\ usageRecords new = [] /\ auditLogs new = [].
Proof.
  assert (R : responses (newEvents (init executor_failed)
                                   (settle task1 (init executor_failed)))
              = [response_failed]) by reflexivity.
  split; [exact R |].
  destruct (executor_failure_marks_run_failed (init executor_failed) task1
              response_failed R eq_refl) as (_ & U & E & Us & Au).
  repeat split; assumption.
Defined.

(** C8, refuted as stated: when the update to [failed] issued by the
    [catch] block throws, the exception leaves [processQueue]: its promise
    is rejected, and the run is never marked [failed]. *)
Lemma failed_update_exception_escapes :
  let s := exec [Enqueue task1; Resume 0%nat] (init store_down_on_failed) in
  rejections s = [JS.Error "store unavailable"]
  /\ statusWrites "run-1" (trace s) = []
  /\ errorLogs "run-1" (trace s) = ["Task failed: Agent run not found"].
Proof. vm_compute. repeat split. Qed.

(** ** The retry/fallback executor *)

Module ExecutorFacts.
Import Executor.

Section Policy.

Variable cfg : Config.
Variables prompt model : string.

(** As long as the provider fails transiently and the ceiling is not
    reached, the policy stays on it. *)
Lemma retryProvider_transient p k :
  forall left try made,
    (k < left)%nat ->
    (forall i, (i < k)%nat ->
               exists e, transport cfg p prompt model (try + i) = TransientFailure e) ->
    exists ps,
      length ps = k
      /\ Forall (fun q => nextProvider q = None) ps
      /\ retryProvider cfg prompt model p left try made
         = (let '(r, n, ps') :=
              retryProvider cfg prompt model p (left - k) (try + k) (made + k) in
            (r, (k + n)%nat, ps ++ ps')%list).
Proof.
  induction k as [| k IH]; intros left try made L T.
  - exists []. rewrite Nat.sub_0_r, !Nat.add_0_r. repeat split; [constructor |].
    now destruct (retryProvider cfg prompt model p left try made) as [[r n] ps'].
  - destruct left as [| [| left]]; try lia.
    destruct (T 0%nat ltac:(lia)) as [e E]. rewrite Nat.add_0_r in E.
    destruct (IH (S left) (S try) (S made) ltac:(lia)) as (ps & Lp & Fp & R).
    { intros i Hi. destruct (T (S i) ltac:(lia)) as [e' E'].
      exists e'. now rewrite Nat.add_succ_comm. }
    exists (mkProgress (Z.of_nat (S made)) e None :: ps).
    split; [cbn; now rewrite Lp |]. split; [now constructor |].
    cbn [retryProvider]. rewrite E.
    cbn [retryProvider] in R |- *. rewrite R.
    replace (S (S left) - S k)%nat with (S left - k)%nat by lia.
    rewrite <- !Nat.add_succ_comm.
    now destruct (retryProvider cfg prompt model p (S left - k) (S try + k)
                                (S made + k)) as [[r n] ps'].
Qed.

Lemma retryProvider_attempts p left try made :
  (0 < left)%nat ->
  (0 < snd (fst (retryProvider cfg prompt model p left try made)))%nat.
Proof.
  intros L. destruct left as [| left]; [lia |]. cbn [retryProvider].
  destruct (transport cfg p prompt model try) as [c i o | e | e];
    cbn [fst snd]; try lia.
  destruct left as [| left]; cbn [fst snd]; try lia.
  destruct (retryProvider cfg prompt model p (S left) (S try) (S made))
    as [[r n] ps]. cbn [fst snd]. lia.
Qed.

Lemma tryProviders_attempted p rest made :
  exists n tail,
    snd (fst (retryProvider cfg prompt model p (ceiling cfg p) 0 made)) = n
    /\ attempted (tryProviders cfg prompt model p rest made)
       = (repeat p n ++ tail)%list.
Proof.
  destruct rest as [| next rest]; cbn [tryProviders];
    destruct (retryProvider cfg prompt model p (ceiling cfg p) 0 made)
      as [[[c i o | e] n] ps]; cbn [fst snd attempted];
    eexists; eexists; (split; [reflexivity |]);
    try (rewrite <- (app_nil_r (repeat p n)) at 1; reflexivity).
  reflexivity.
Qed.


(** C9: while the primary provider has failed transiently [k] times, [k]
    below the attempt ceiling, the executor is still on the primary
    provider for attempt [k + 1]; if that attempt succeeds the outcome is a
    success with [usedProvider] the primary provider and [attempts = k + 1];
    the next provider of the fallback order is attempted only once the
    ceiling is exhausted, and is then the next attempt. *)
Theorem retries_stay_on_primary (primary : string) (k : nat) :
  (k < ceiling cfg primary)%nat ->
  (forall i, (i < k)%nat ->
             exists e, transport cfg primary prompt model i = TransientFailure e) ->
  let r := callWithRetry cfg prompt model primary in
  (forall c i o,
      transport cfg primary prompt model k = Served c i o ->
      success (outcome r) = true
      /\ usedProvider (outcome r) = primary
      /\ attempts (outcome r) = Z.of_nat k + 1
      /\ attempted r = repeat primary (S k))
  /\ firstn (S k) (attempted r) = repeat primary (S k)
  /\ (forall e next rest,
         S k = ceiling cfg primary ->
         (0 < ceiling cfg next)%nat ->
         transport cfg primary prompt model k = TransientFailure e ->
         fallbackOrder cfg primary = next :: rest ->
         nth_error (attempted r) (S k) = Some next
         /\ In (mkProgress (Z.of_nat (S k)) e (Some next)) (progress r)).
Proof.
  intros K T r.
  destruct (retryProvider_transient primary k (ceiling cfg primary) 0 0 K T)
    as (ps & Lp & _ & R).
  cbn [Nat.add] in R.
  assert (L : (0 < ceiling cfg primary - k)%nat) by lia.
  split; [| split].
  - intros c i o Sv. subst r. unfold callWithRetry.
    destruct (ceiling cfg primary - k)%nat as [| left] eqn:C; [lia |].
    cbn [retryProvider] in R. rewrite Sv in R.
    destruct (fallbackOrder cfg primary) as [| next rest];
      cbn [tryProviders]; rewrite R; cbn [outcome attempted success usedProvider attempts];
      rewrite Nat.add_1_r; repeat split; lia.
  - subst r. unfold callWithRetry.
    destruct (tryProviders_attempted primary (fallbackOrder cfg primary) 0)
      as (n & tail & N & A).
    rewrite A. rewrite R in N.
    pose proof (retryProvider_attempts primary (ceiling cfg primary - k) k k L) as P.
    destruct (retryProvider cfg prompt model primary (ceiling cfg primary - k) k k)
      as [[r' n'] ps']. cbn [fst snd] in N, P.
    replace n with (S k + (n' - 1))%nat by lia.
    rewrite repeat_app, <- app_assoc, firstn_app, repeat_length, Nat.sub_diag.
    rewrite firstn_all2 by (rewrite repeat_length; lia).
    cbn [firstn]. now rewrite app_nil_r.
  - intros e next rest C Cn Tk Fo. subst r. unfold callWithRetry. rewrite Fo.
    replace (ceiling cfg primary - k)%nat with 1%nat in R by lia.
    cbn [retryProvider] in R. rewrite Tk in R.
    cbn [tryProviders]. rewrite R. cbn [attempted progress Nat.add].
    rewrite !Nat.add_1_r.
    destruct (tryProviders_attempted next rest (S k)) as (n & tail & N & A).
    pose proof (retryProvider_attempts next (ceiling cfg next) 0 (S k) Cn) as P.
    rewrite N in P. rewrite A.
    split.
    + rewrite nth_error_app2 by (rewrite repeat_length; lia).
      rewrite repeat_length, Nat.sub_diag.
      destruct n as [| n]; [lia | reflexivity].
    + apply in_or_app. right. left. reflexivity.
Qed.

End Policy.

(** The model on the three shapes of run the spec lists. *)
Example flaky_run :
  callWithRetry flaky "Summarise the report" "gpt-4o" "openai"
  = mkReport
      (mkResponse true (Some "Done.")
                  (Some (mkUsage (Some 120) (Some 45) (Some "0.0021")))
                  "openai" 3 None)
      [mkProgress 1 "timeout" None; mkProgress 2 "timeout" None]
      ["openai"; "openai"; "openai"].
Proof. reflexivity. Qed.

Example fallback_run :
  callWithRetry primary_down "Summarise the report" "gpt-4o" "openai"
  = mkReport
      (mkResponse true (Some "Done.")
                  (Some (mkUsage (Some 200) (Some 80) (Some "0.0040")))
                  "anthropic" 3 None)
      [mkProgress 1 "timeout" None; mkProgress 2 "timeout" (Some "anthropic")]
      ["openai"; "openai"; "anthropic"].
Proof. reflexivity. Qed.

Example exhausted_run :
  callWithRetry all_down "Summarise the report" "gpt-4o" "openai"
  = mkReport
      (mkResponse false None None "anthropic" 5 (Some "rate limited"))
      [mkProgress 1 "timeout" None; mkProgress 2 "timeout" (Some "anthropic");
       mkProgress 3 "rate limited" None; mkProgress 4 "rate limited" None]
      ["openai"; "openai"; "anthropic"; "anthropic"; "anthropic"].
Proof. reflexivity. Qed.

(** On the [flaky] configuration the third attempt on "openai" answers. *)
Lemma retries_stay_on_primary_flaky :
  let r := callWithRetry flaky "Summarise the report" "gpt-4o" "openai" in
  (forall c i o,
      transport flaky "openai" "Summarise the report" "gpt-4o" 2 = Served c i o ->
      success (outcome r) = true
      /\ usedProvider (outcome r) = "openai"
      /\ attempts (outcome r) = Z.of_nat 2 + 1
      /\ attempted r = repeat "openai" 3)
  /\ firstn 3 (attempted r) = repeat "openai" 3
  /\ (forall e next rest,
         3%nat = ceiling flaky "openai" ->
         (0 < ceiling flaky next)%nat ->
         transport flaky "openai" "Summarise the report" "gpt-4o" 2
         = TransientFailure e ->
         fallbackOrder flaky "openai" = next :: rest ->
         nth_error (attempted r) 3 = Some next
         /\ In (mkProgress (Z.of_nat 3) e (Some next)) (progress r)).
Proof.
  apply (retries_stay_on_primary flaky "Summarise the report" "gpt-4o" "openai" 2).
  - cbn. lia.
  - intros i Hi. exists "timeout".
    destruct i as [| [| i]]; [reflexivity | reflexivity | lia].
Defined.

End ExecutorFacts.

(** * Further properties of the dispatch queue *)

(** ** The backlog makes progress *)

Section Progress.

Context {W : Type} {storage : Storage W} {retryService : RetryService W}
        {costGovernor : CostGovernor W}.

Lemma steady_init (w : W) : steady (init w).
Proof. split; [apply coherent_init | intros _; now left]. Qed.

(** On a coherent queue that is not busy, [processQueue] admits the head of
    a backlog that is not empty. *)
Lemma processQueue_admits (s : State W) t rest :
  coherent s -> processing s = false -> queue s = t :: rest ->
  processQueue s
  = admit_task t (set_processing true
                    (set_activeCount (activeCount s + 1) (set_queue rest s))).
Proof.
  unfold coherent, processQueue. intros C P Q. rewrite P in C |- *.
  destruct C as [A _]. rewrite A, Q. reflexivity.
Qed.

Lemma processQueue_empty (s : State W) :
  queue s = [] -> processQueue s = s.
Proof.
  unfold processQueue. intros ->.
  now destruct (processing s || (activeCount s >=? concurrency))%bool.
Qed.

Lemma steady_processQueue (s : State W) :
  coherent s -> steady (processQueue s).
Proof.
  intros C. split; [now apply coherent_processQueue |].
  destruct (processing s) eqn:P.
  - rewrite (processQueue_idle s P). congruence.
  - destruct (queue s) as [| t rest] eqn:Q.
    + rewrite (processQueue_empty s Q). intros _. now left.
    + rewrite (processQueue_admits s t rest C P Q). cbn. discriminate.
Qed.

Lemma steady_step (s : State W) (st : Step) : steady s -> steady (step s st).
Proof.
  intros [C T]. destruct st as [task | i |].
  - cbn [step]. unfold enqueue. apply steady_processQueue.
    exact C.
  - split; [exact (coherent_step s (Resume i) C) |]. cbn [step].
    destruct (nth_error (frames s) i) as [task |] eqn:N; [| exact T].
    destruct (settle_fields task (set_frames (remove_nth i (frames s)) s))
      as (q & _ & _ & _ & _ & t).
    cbn [queue timers set_frames] in q, t. rewrite q, t. intros _.
    destruct (queue s) as [| t0 rest]; [now left | right; cbn; lia].
  - cbn [step]. destruct (timers s) as [| n] eqn:Tm.
    { split; [exact C |]. intros P. destruct (T P); [now left | lia]. }
    apply steady_processQueue. exact C.
Qed.

Lemma steady_exec (steps : list Step) (s : State W) :
  steady s -> steady (exec steps s).
Proof.
  revert s. induction steps as [| st steps IH]; intros s H; [exact H |].
  change (exec (st :: steps) s) with (exec steps (step s st)).
  apply IH. now apply steady_step.
Qed.

(** Right after [enqueue] a coherent queue is busy with one task. *)
Lemma enqueue_busy (s : State W) task :
  coherent s ->
  processing (enqueue task s) = true
  /\ length (frames (enqueue task s)) = 1%nat.
Proof.
  intros C. unfold enqueue.
  assert (C1 : coherent (record (Log (runId task) Info "Task queued")
                                (set_queue (queue s ++ [task]) s))) by exact C.
  unfold coherent in C.
  destruct (processing s) eqn:P.
  - rewrite processQueue_idle by exact P. cbn [processing frames record set_queue].
    rewrite P. now split.
  - destruct C as [_ F].
    assert (Q : exists t rest, (queue s ++ [task])%list = t :: rest).
    { destruct (queue s); cbn; eauto. }
    destruct Q as (t & rest & Q).
    rewrite (processQueue_admits _ t rest C1 P Q).
    cbn [processing frames admit_task set_processing set_activeCount set_queue record].
    rewrite F. now split.
Qed.

(** X1: the backlog never stalls.  In every state the queue can reach,
    when no task is in execution either the backlog is empty or a timer
    for the next admission is pending; and right after any call of
    [enqueue] a task is in execution. *)
Theorem backlog_never_stalls (w : W) (steps : list Step) :
  let s := exec steps (init w) in
  (processing s = false -> queue s = [] \/ (0 < timers s)%nat)
  /\ forall task,
      processing (enqueue task s) = true
      /\ length (frames (enqueue task s)) = 1%nat.
Proof.
  intros s. subst s.
  pose proof (steady_exec steps (init w) (steady_init w)) as [C T].
  split; [exact T |]. intros task. now apply enqueue_busy.
Qed.

(** One round of the schedule: the running task, if any, finishes and the
    timer, if any, fires. *)
Lemma drain_round (s : State W) :
  steady s ->
  let s1 := step (step s (Resume 0%nat)) Timer in
  steady s1
  /\ match queue s with
     | [] => queue s1 = [] /\ frames s1 = [] /\ processing s1 = false
             /\ admissions s1 = admissions s
     | t :: rest => queue s1 = rest /\ frames s1 = [t]
                    /\ admissions s1 = (admissions s ++ [t])%list
     end.
Proof.
  intros H s1. subst s1.
  split; [apply steady_step, steady_step; exact H |].
  pose proof (steady_step s (Resume 0%nat) H) as [C1 T1].
  destruct H as [C T]. unfold coherent in C.
  set (s0 := step s (Resume 0%nat)) in *.
  assert (F : queue s0 = queue s /\ processing s0 = false /\ frames s0 = []
              /\ admissions s0 = admissions s).
  { subst s0. cbn [step]. destruct (processing s) eqn:P.
    - destruct C as [_ L].
      destruct (frames s) as [| x [| y l]] eqn:Fr; try discriminate. cbn.
      destruct (settle_fields x (set_frames [] s)) as (q & p & _ & f & d & _).
      repeat split; assumption.
    - destruct C as [_ Fr]. rewrite Fr. cbn. repeat split; assumption. }
  destruct F as (q & p & f & d).
  cbn [step]. destruct (queue s) as [| t rest] eqn:Q.
  - destruct (timers s0) as [| n].
    + repeat split; assumption.
    + rewrite processQueue_empty by exact q.
      cbn [queue frames processing admissions set_timers].
      repeat split; assumption.
  - destruct (T1 p) as [E | L]; [congruence |].
    destruct (timers s0) as [| n]; [lia |].
    assert (Cn : coherent (set_timers n s0)) by exact C1.
    rewrite (processQueue_admits (set_timers n s0) t rest Cn p q).
    cbn [queue frames admissions admit_task set_processing set_activeCount
         set_queue set_timers].
    rewrite f, d. repeat split.
Qed.

Lemma drain_steady (n : nat) (s : State W) :
  steady s -> (length (queue s) < n)%nat ->
  let s' := exec (drain n) s in
  queue s' = [] /\ frames s' = [] /\ processing s' = false
  /\ admissions s' = (admissions s ++ queue s)%list.
Proof.
  revert s. induction n as [| n IH]; intros s H L; [lia |].
  change (exec (drain (S n)) s)
    with (exec (drain n) (step (step s (Resume 0%nat)) Timer)).
  destruct (drain_round s H) as [H1 R].
  set (s1 := step (step s (Resume 0%nat)) Timer) in *.
  destruct (queue s) as [| t rest] eqn:Q.
  - destruct R as (q & f & p & d). clear IH L.
    assert (K : forall m (x : State W),
               steady x -> queue x = [] -> frames x = [] ->
               processing x = false ->
               let x' := exec (drain m) x in
               queue x' = [] /\ frames x' = [] /\ processing x' = false
               /\ admissions x' = admissions x).
    { induction m as [| m IHm]; intros x Hx qx fx px; [now repeat split |].
      change (exec (drain (S m)) x)
        with (exec (drain m) (step (step x (Resume 0%nat)) Timer)).
      destruct (drain_round x Hx) as [Hx1 Rx]. rewrite qx in Rx.
      destruct Rx as (q1 & f1 & p1 & d1).
      destruct (IHm _ Hx1 q1 f1 p1) as (q2 & f2 & p2 & d2).
      repeat split; congruence. }
    destruct (K n s1 H1 q f p) as (q2 & f2 & p2 & d2).
    rewrite app_nil_r. repeat split; congruence.
  - destruct R as (q & f & d). cbn in L.
    destruct (IH s1 H1 ltac:(rewrite q; lia)) as (q2 & f2 & p2 & d2).
    repeat split; try assumption.
    rewrite d2, d, q, <- app_assoc. reflexivity.
Qed.

(** X2: the backlog drains in order.  From every state the queue can
    reach, once the running task has finished and the timer has fired one
    time more than there are backlogged tasks, the backlog is empty, no
    task is in execution, and the backlogged tasks have been admitted in
    their order. *)
Theorem backlog_drains_in_order (w : W) (steps : list Step) :
  let s := exec steps (init w) in
  let s' := exec (drain (S (length (queue s)))) s in
  queue s' = [] /\ frames s' = [] /\ processing s' = false
  /\ admissions s' = (admissions s ++ queue s)%list
  /\ enqueued steps = admissions s'.
Proof.
  intros s s'.
  destruct (drain_steady (S (length (queue s))) s
              (steady_exec steps (init w) (steady_init w)) ltac:(lia))
    as (q & f & p & d).
  fold s' in q, f, p, d. repeat split; try assumption.
  rewrite d. subst s. rewrite exec_backlog. reflexivity.
Qed.

End Progress.

(** ** The events of one task *)

Section Shape.

Context {W : Type} {storage : Storage W} {retryService : RetryService W}
        {costGovernor : CostGovernor W}.

Lemma eventsBefore_progress task ps rest :
  eventsBefore isExecutorCall (map (onProgress task) ps ++ rest)%list
  = option_map (app (map (onProgress task) ps))
               (eventsBefore isExecutorCall rest).
Proof.
  induction ps as [| p ps IH]; cbn [map app].
  - now destruct (eventsBefore isExecutorCall rest).
  - cbn [eventsBefore]. rewrite IH.
    replace (isExecutorCall (onProgress task p)) with false
      by (unfold onProgress; now destruct (nextProvider p) as [[| c n] |]).
    now destruct (eventsBefore isExecutorCall rest).
Qed.

Lemma forallb_progress task ps :
  forallb (concerns task) (map (onProgress task) ps) = true.
Proof.
  induction ps as [| p ps IH]; cbn; [reflexivity |].
  rewrite IH, andb_true_r. unfold onProgress.
  destruct (nextProvider p) as [[| c n] |]; cbn; apply String.eqb_refl.
Qed.

Ltac observe2 :=
  unfold responses, trackCostCalls, usageRecords, auditLogs, loadedRuns,
    orgLookups, updateCalls, statusWrites, errorLogs, messages,
    executorCalls, completedPatches, userMessage, assistantMessage;
  cbn [flat_map app];
  rewrite ?flat_map_progress by reflexivity;
  cbn [flat_map app];
  rewrite ?String.eqb_refl;
  cbn [flat_map app status andb Status_eqb runningPatch completedPatch].

(** What one call of [executeTask] leaves, however it ends. *)
Lemma executeTask_shape (s : State W) task r s' :
  executeTask task s = (r, s') ->
  let new := newEvents s s' in
  In (statusWrites (runId task) new) [[]; [Running]; [Running; Completed]]
  /\ errorLogs (runId task) new = []
  /\ match r with Ok _ => True | Throw _ => auditLogs new = [] end
  /\ (messages new = [] \/ messages new = [userMessage task]
      \/ exists response,
          responses new = [response] /\ success response = true
          /\ messages new = [userMessage task; assistantMessage task response])
  /\ forallb (concerns task) new = true
  /\ match eventsBefore isExecutorCall new with
     | None => executorCalls new = []
     | Some pre =>
         exists run,
           loadedRuns pre = [Some run]
           /\ statusWrites (runId task) pre = [Running]
           /\ messages pre = [userMessage task]
           /\ executorCalls new = [(provider run, goal task, model run)]
     end
  /\ (completedPatches (runId task) new = []
      \/ exists response,
          responses new = [response] /\ success response = true
          /\ completedPatches (runId task) new = [completedPatch response])
  /\ match afterStatus Completed (runId task) new with
     | None => trackCostCalls new = [] /\ usageRecords new = []
     | Some post =>
         trackCostCalls new = trackCostCalls post
         /\ usageRecords new = usageRecords post
         /\ (length (trackCostCalls post) <= 1)%nat
         /\ (length (usageRecords post) <= 1)%nat
     end.
Proof.
  intros H new. subst new. run_task H.
  all: events.
  all: repeat match goal with
              | E : negb ?b = false |- _ => apply negb_false_iff in E
              end.
  all: split; [observe2; cbn; tauto |].
  all: split; [observe2; reflexivity |].
  all: split; [observe2; try reflexivity; exact I |].
  all: split;
    [ observe2;
      first [ left; reflexivity
            | right; left; reflexivity
            | right; right; eexists; split; [reflexivity |];
              split; [assumption | reflexivity] ] |].
  all: split;
    [ cbn [forallb app concerns callConcerns];
      rewrite ?forallb_app, ?forallb_progress;
      cbn [forallb app concerns callConcerns agentRunId msgProjectId
           usageRecordOf usageOrgId metadata metaAgentRunId auditLogOf
           auditOrgId target];
      rewrite ?String.eqb_refl; reflexivity |].
  all: split;
    [ cbn [eventsBefore isExecutorCall option_map];
      rewrite ?eventsBefore_progress;
      cbn [eventsBefore isExecutorCall option_map];
      first [ observe2; reflexivity
            | eexists; observe2; repeat split; reflexivity ] |].
  all: split;
    [ observe2;
      first [ left; reflexivity
            | right; eexists; split; [reflexivity |];
              split; [assumption | reflexivity] ] |].
  all: cbn [afterStatus]; rewrite ?afterStatus_progress; cbn [afterStatus];
    rewrite ?String.eqb_refl;
    cbn [afterStatus status andb Status_eqb runningPatch completedPatch];
    observe2; cbn [length]; repeat split; lia.
Qed.

End Shape.

Section TaskExtras.

Context {W : Type} {storage : Storage W} {retryService : RetryService W}
        {costGovernor : CostGovernor W}.

Lemma eventsBefore_app p l l' :
  eventsBefore p (l ++ l')%list
  = match eventsBefore p l with
    | Some pre => Some pre
    | None => option_map (app l) (eventsBefore p l')
    end.
Proof.
  induction l as [| e l IH]; cbn [app eventsBefore].
  - now destruct (eventsBefore p l').
  - destruct (p e); [reflexivity |]. rewrite IH.
    destruct (eventsBefore p l); [reflexivity |].
    now destruct (eventsBefore p l').
Qed.

(** What the [catch] block adds to a trace, read by each observer. *)
Lemma catch_events_read task e call :
  call = Returned (UpdateAgentRun (runId task) (failedPatch e)) VUnit
  \/ (exists e', call = Raised (UpdateAgentRun (runId task) (failedPatch e)) e') ->
  let added := [Log (runId task) LogError ("Task failed: " ++ JS.messageOf e); call] in
  messages added = [] /\ executorCalls added = []
  /\ completedPatches (runId task) added = []
  /\ auditLogs added = [] /\ responses added = []
  /\ errorLogs (runId task) added = ["Task failed: " ++ JS.messageOf e]
  /\ eventsBefore isExecutorCall added = None
  /\ forallb (concerns task) added = true
  /\ (statusWrites (runId task) added = [] \/ statusWrites (runId task) added = [Failed]).
Proof.
  intros [-> | [e' ->]]; cbn; rewrite ?String.eqb_refl; cbn;
    repeat split; auto.
Qed.

Lemma settle_call task e (s : State W) call :
  (call = Returned (UpdateAgentRun (runId task) (failedPatch e)) VUnit
   /\ rejections (settle task s) = rejections s)
  \/ (exists e', call = Raised (UpdateAgentRun (runId task) (failedPatch e)) e'
                 /\ rejections (settle task s) = (rejections s ++ [e'])%list) ->
  call = Returned (UpdateAgentRun (runId task) (failedPatch e)) VUnit
  \/ (exists e', call = Raised (UpdateAgentRun (runId task) (failedPatch e)) e').
Proof. intros [[-> _] | (e' & -> & _)]; [now left | right; now exists e']. Qed.

(** X3: the statuses the store acknowledges while one task is processed
    form one of six sequences; [completed] is only ever acknowledged after
    [running], [failed] only when [executeTask] threw, and a task whose
    [executeTask] resolves leaves exactly [running], [completed]. *)
Theorem status_sequences (s : State W) task :
  let ws := statusWrites (runId task) (newEvents s (settle task s)) in
  match fst (executeTask task s) with
  | Ok _ => ws = [Running; Completed]
  | Throw _ =>
      In ws [[]; [Failed]; [Running]; [Running; Failed];
             [Running; Completed]; [Running; Completed; Failed]]
  end.
Proof.
  intros ws. subst ws.
  destruct (executeTask task s) as [r s1] eqn:E.
  pose proof (settle_events s task r s1 E) as S.
  destruct r as [[] | e]; cbn [fst].
  - destruct S as [-> _].
    destruct (executeTask_resolved s task s1 E)
      as (run & response & org & _ & _ & _ & _ & _ & St & _). exact St.
  - destruct S as (call & -> & C). apply settle_call in C.
    destruct (catch_events_read task e call C)
      as (_ & _ & _ & _ & _ & _ & _ & _ & F).
    destruct (executeTask_shape s task _ s1 E) as (St & _).
    unfold statusWrites in *. rewrite flat_map_app.
    cbn [In] in St.
    destruct St as [St | [St | [St | []]]]; rewrite <- St;
      destruct F as [F | F]; rewrite F; cbn; tauto.
Qed.

(** X4: the queue calls the executor at most once per task and retries
    nothing itself; it calls it only for a run that was found, after the
    store acknowledged status [running] and the task's goal as a user
    message; and it passes the run's provider, the task's goal and the
    run's model. *)
Theorem executor_called_once_after_start (s : State W) task :
  let new := newEvents s (settle task s) in
  match eventsBefore isExecutorCall new with
  | None => executorCalls new = []
  | Some pre =>
      exists run,
        loadedRuns pre = [Some run]
        /\ statusWrites (runId task) pre = [Running]
        /\ messages pre
           = [mkMessage (projectId task) (runId task) User (goal task)]
        /\ executorCalls new = [(provider run, goal task, model run)]
  end.
Proof.
  intros new. subst new.
  destruct (executeTask task s) as [r s1] eqn:E.
  pose proof (settle_events s task r s1 E) as S.
  destruct (executeTask_shape s task _ s1 E) as (_ & _ & _ & _ & _ & X & _).
  destruct r as [[] | e].
  - destruct S as [-> _]. exact X.
  - destruct S as (call & -> & C). apply settle_call in C.
    destruct (catch_events_read task e call C)
      as (_ & Ex & _ & _ & _ & _ & Eb & _).
    rewrite eventsBefore_app. unfold executorCalls in *.
    rewrite flat_map_app, Ex, app_nil_r.
    destruct (eventsBefore isExecutorCall (newEvents s s1)); [exact X |].
    rewrite Eb. exact X.
Qed.

(** X5: an Audit record is created exactly when [executeTask] resolves:
    then there is one, for the task's organisation, with no user, action
    "agent_run_completed", the run id as target and the requested provider,
    the provider used, the model, the cost estimate and the attempt count
    as detail; when [executeTask] throws there is none. *)
Theorem audit_record_iff_resolved (s : State W) task :
  let new := newEvents s (settle task s) in
  match fst (executeTask task s) with
  | Ok _ =>
      exists run response,
        loadedRuns new = [Some run] /\ responses new = [response]
        /\ auditLogs new
           = [mkAudit (orgId task) None "agent_run_completed" (runId task)
                      (mkDetail (provider run) (usedProvider response)
                                (model run) (costEstimateOf response)
                                (attempts response))]
  | Throw _ => auditLogs new = []
  end.
Proof.
  intros new. subst new.
  destruct (executeTask task s) as [r s1] eqn:E.
  pose proof (settle_events s task r s1 E) as S.
  destruct r as [[] | e]; cbn [fst].
  - destruct S as [-> _].
    destruct (executeTask_resolved s task s1 E)
      as (run & response & org & L & R & _ & _ & _ & _ & _ & _ & A & _).
    now exists run, response.
  - destruct S as (call & -> & C). apply settle_call in C.
    destruct (catch_events_read task e call C) as (_ & _ & _ & Au & _).
    destruct (executeTask_shape s task _ s1 E) as (_ & _ & A & _).
    unfold auditLogs in *. now rewrite flat_map_app, A, Au.
Qed.

(** X6: a task emits exactly one [error] log event when [executeTask]
    throws, with the message "Task failed: " followed by the error's
    message, or by "Unknown error" when the thrown value is not an [Error];
    it emits none when [executeTask] resolves. *)
Theorem one_error_log_iff_thrown (s : State W) task :
  errorLogs (runId task) (newEvents s (settle task s))
  = match fst (executeTask task s) with
    | Ok _ => []
    | Throw (JS.Error m) => ["Task failed: " ++ m]
    | Throw JS.NonError => ["Task failed: Unknown error"]
    end.
Proof.
  destruct (executeTask task s) as [r s1] eqn:E.
  pose proof (settle_events s task r s1 E) as S.
  destruct (executeTask_shape s task _ s1 E) as (_ & Er & _).
  destruct r as [[] | e]; cbn [fst].
  - destruct S as [-> _]. exact Er.
  - destruct S as (call & -> & C). apply settle_call in C.
    destruct (catch_events_read task e call C) as (_ & _ & _ & _ & _ & El & _).
    unfold errorLogs in *. rewrite flat_map_app, Er, El.
    now destruct e.
Qed.

(** X7: at most two messages are stored for a task: first the task's goal
    as a user message, then, only when the executor reported success, its
    content as an assistant message (the empty string when the outcome has
    no content). *)
Theorem messages_of_a_task (s : State W) task :
  let new := newEvents s (settle task s) in
  let user := mkMessage (projectId task) (runId task) User (goal task) in
  messages new = [] \/ messages new = [user]
  \/ exists response,
      responses new = [response] /\ success response = true
      /\ messages new
         = [user;
            mkMessage (projectId task) (runId task) Assistant
                      (JS.orString (content response) "")].
Proof.
  intros new user. subst new user.
  destruct (executeTask task s) as [r s1] eqn:E.
  pose proof (settle_events s task r s1 E) as S.
  destruct (executeTask_shape s task _ s1 E) as (_ & _ & _ & M & _).
  destruct r as [[] | e].
  - destruct S as [-> _]. exact M.
  - destruct S as (call & -> & C). apply settle_call in C.
    destruct (catch_events_read task e call C) as (Me & _ & _ & _ & Re & _).
    unfold messages, responses in *.
    rewrite !flat_map_app, Me, Re, !app_nil_r. exact M.
Qed.

(** X8: processing a task touches nothing but that task: every log event
    carries its run id, every store call names its run id, project id or
    organisation id, and the executor receives its goal. *)
Theorem task_events_concern_task (s : State W) task :
  Forall (fun e => concerns task e = true) (newEvents s (settle task s)).
Proof.
  apply Forall_forall. apply forallb_forall.
  destruct (executeTask task s) as [r s1] eqn:E.
  pose proof (settle_events s task r s1 E) as S.
  destruct (executeTask_shape s task _ s1 E) as (_ & _ & _ & _ & Cn & _).
  destruct r as [[] | e].
  - destruct S as [-> _]. exact Cn.
  - destruct S as (call & -> & C). apply settle_call in C.
    destruct (catch_events_read task e call C)
      as (_ & _ & _ & _ & _ & _ & _ & Ca & _).
    rewrite forallb_app, Cn. exact Ca.
Qed.


Lemma afterStatus_catch task e call :
  call = Returned (UpdateAgentRun (runId task) (failedPatch e)) VUnit
  \/ (exists e', call = Raised (UpdateAgentRun (runId task) (failedPatch e)) e') ->
  let added := [Log (runId task) LogError ("Task failed: " ++ JS.messageOf e); call] in
  afterStatus Completed (runId task) added = None
  /\ trackCostCalls added = [] /\ usageRecords added = [].
Proof.
  intros [-> | [e' ->]]; cbn; rewrite ?andb_false_r; repeat split.
Qed.

(** X9: a run is marked [completed] at most once per task, only after the
    executor reported success, and what is persisted is the executor's
    outcome: its content, usage, provider used and attempt count as output,
    and its cost estimate (or "0"). *)
Theorem completed_persists_the_outcome (s : State W) task :
  let new := newEvents s (settle task s) in
  completedPatches (runId task) new = []
  \/ exists response,
      responses new = [response] /\ success response = true
      /\ completedPatches (runId task) new
         = [mkPatch Completed
                    (Some (OutputResult (content response) (usage response)
                                        (usedProvider response)
                                        (attempts response)))
                    (Some (costEstimateOf response))].
Proof.
  intros new. subst new.
  destruct (executeTask task s) as [r s1] eqn:E.
  pose proof (settle_events s task r s1 E) as S.
  destruct (executeTask_shape s task _ s1 E)
    as (_ & _ & _ & _ & _ & _ & P & _).
  destruct r as [[] | e].
  - destruct S as [-> _]. exact P.
  - destruct S as (call & -> & C). apply settle_call in C.
    destruct (catch_events_read task e call C)
      as (_ & _ & Cp & _ & Re & _).
    unfold completedPatches, responses in *.
    rewrite !flat_map_app, Cp, Re, !app_nil_r. exact P.
Qed.

(** X10: cost is tracked and usage recorded at most once per task, and
    only after the store acknowledged [completed]: a task that never
    reaches that write, such as one whose executor failed, calls
    [trackCost] never and creates no Usage record. *)
Theorem billing_only_after_completed (s : State W) task :
  let new := newEvents s (settle task s) in
  (length (trackCostCalls new) <= 1)%nat
  /\ (length (usageRecords new) <= 1)%nat
  /\ match afterStatus Completed (runId task) new with
     | None => trackCostCalls new = [] /\ usageRecords new = []
     | Some post =>
         trackCostCalls new = trackCostCalls post
         /\ usageRecords new = usageRecords post
     end.
Proof.
  intros new. subst new.
  destruct (executeTask task s) as [r s1] eqn:E.
  pose proof (settle_events s task r s1 E) as S.
  destruct (executeTask_shape s task _ s1 E)
    as (_ & _ & _ & _ & _ & _ & _ & B).
  assert (G : forall added,
             afterStatus Completed (runId task) added = None ->
             trackCostCalls added = [] -> usageRecords added = [] ->
             let new := (newEvents s s1 ++ added)%list in
             (length (trackCostCalls new) <= 1)%nat
             /\ (length (usageRecords new) <= 1)%nat
             /\ match afterStatus Completed (runId task) new with
                | None => trackCostCalls new = [] /\ usageRecords new = []
                | Some post =>
                    trackCostCalls new = trackCostCalls post
                    /\ usageRecords new = usageRecords post
                end).
  { intros added A T U new. subst new. rewrite afterStatus_app.
    unfold trackCostCalls, usageRecords in *.
    rewrite !flat_map_app, T, U, !app_nil_r.
    destruct (afterStatus Completed (runId task) (newEvents s s1)) as [post |].
    - destruct B as (Bt & Bu & Lt & Lu).
      rewrite !flat_map_app, T, U, !app_nil_r, Bt, Bu. repeat split; assumption.
    - destruct B as (Bt & Bu). rewrite A, Bt, Bu. cbn. repeat split; lia. }
  destruct r as [[] | e].
  - destruct S as [S _]. rewrite S.
    specialize (G [] eq_refl eq_refl eq_refl). cbn zeta in G.
    now rewrite app_nil_r in G.
  - destruct S as (call & -> & C). apply settle_call in C.
    destruct (afterStatus_catch task e call C) as (A & T & U).
    exact (G _ A T U).
Qed.

End TaskExtras.

(** * Properties of the SCBE integration layer *)

Module SCBEFacts.
Import SCBE.

Lemma decodeToken_encodeByteToSS1 (b : Byte.byte) :
  exists a1 a2 a3 a4 a5,
    encodeByteToSS1 (Z.of_N (Byte.to_N b))
    = String a1 (String a2 (String a3 (String a4 (String a5 EmptyString))))
    /\ decodeToken a1 a2 a3 a4 a5 = Some b.
Proof.
  destruct b; do 5 eexists; split; reflexivity.
Qed.

Lemma append_empty_r (s : string) : s ++ "" = s.
Proof. induction s as [| c s IH]; cbn; [reflexivity | now rewrite IH]. Qed.

(** [join('')] of a list with one more token in front. *)
Lemma concat_cons (t : string) (ts : list string) :
  String.concat "" (t :: ts) = t ++ String.concat "" ts.
Proof.
  destruct ts as [| u us]; cbn [String.concat];
    [now rewrite append_empty_r | reflexivity].
Qed.

Lemma decodeTokens_encode (data : list Byte.byte) :
  decodeTokens (String.concat "" (map encodeByteToSS1 (bytesOf data)))
  = Some data.
Proof.
  induction data as [| b data IH]; [reflexivity |].
  destruct (decodeToken_encodeByteToSS1 b) as (a1 & a2 & a3 & a4 & a5 & E & D).
  change (bytesOf (b :: data))
    with (Z.of_N (Byte.to_N b) :: bytesOf data).
  cbn [map].
  rewrite concat_cons, E. cbn [append decodeTokens]. now rewrite D, IH.
Qed.

(** X11: [encodeSacredTongue] loses nothing: two encodings are equal only
    for the same bytes and the same tongue. *)
Theorem encodeSacredTongue_injective (d1 d2 : list Byte.byte) (t1 t2 : SacredTongue) :
  encodeSacredTongue d1 t1 = encodeSacredTongue d2 t2 ->
  d1 = d2 /\ t1 = t2.
Proof.
  unfold encodeSacredTongue. intros H.
  assert (T : t1 = t2)
    by (destruct t1, t2; cbn in H; try reflexivity; discriminate H).
  subst t2. split; [| reflexivity].
  assert (E : String.concat "" (map encodeByteToSS1 (bytesOf d1))
              = String.concat "" (map encodeByteToSS1 (bytesOf d2)))
    by (destruct t1; cbn in H; now injection H).
  apply (f_equal decodeTokens) in E.
  rewrite !decodeTokens_encode in E. now injection E.
Qed.

Lemma encodeSacredTongue_injective_witness :
  encodeSacredTongue [Byte.x00; Byte.x4a; Byte.xff] ru
  = encodeSacredTongue [Byte.x00; Byte.x4a; Byte.xff] ru
  /\ [Byte.x00; Byte.x4a; Byte.xff] = [Byte.x00; Byte.x4a; Byte.xff]
  /\ ru = ru.
Proof.
  split; [reflexivity |].
  exact (encodeSacredTongue_injective _ _ ru ru eq_refl).
Defined.

Example encodeSacredTongue_example :
  encodeSacredTongue [Byte.x00; Byte.x4a; Byte.xff] ru = "ru:za'thef'ursi'us".
Proof. reflexivity. Qed.

Lemma length_append (a b : string) :
  String.length (a ++ b) = (String.length a + String.length b)%nat.
Proof. induction a as [| c a IH]; cbn; [reflexivity | now rewrite IH]. Qed.

Lemma length_encodeByteToSS1 (b : Byte.byte) :
  String.length (encodeByteToSS1 (Z.of_N (Byte.to_N b))) = 5%nat.
Proof. destruct b; reflexivity. Qed.

(** X12: the encoding has a fixed width: five characters for every byte
    (a two-letter prefix, an apostrophe, a two-letter suffix) after the
    two-letter tongue and the colon. *)
Theorem encodeSacredTongue_length (data : list Byte.byte) (tongue : SacredTongue) :
  String.length (encodeSacredTongue data tongue) = (3 + 5 * length data)%nat.
Proof.
  unfold encodeSacredTongue.
  assert (L : String.length (String.concat "" (map encodeByteToSS1 (bytesOf data)))
              = (5 * length data)%nat).
  { induction data as [| b data IH]; [reflexivity |].
    change (bytesOf (b :: data)) with (Z.of_N (Byte.to_N b) :: bytesOf data).
    cbn [map]. rewrite concat_cons, length_append, length_encodeByteToSS1, IH.
    cbn [length]. lia. }
  rewrite !length_append, L. now destruct tongue.
Qed.

(** X13: the tongues required grow with the tier: tier [n] requires [n]
    distinct tongues, and every tongue required at a tier is required at
    every higher tier, in the same position. *)
Theorem required_tongues_nest (lower higher : GovernanceTier) :
  Z.of_nat (length (getRequiredTongues lower)) = tierNumber lower
  /\ NoDup (getRequiredTongues lower)
  /\ (tierNumber lower <= tierNumber higher ->
      exists more,
        getRequiredTongues higher = (getRequiredTongues lower ++ more)%list).
Proof.
  split; [now destruct lower |]. split.
  - destruct lower; cbn;
      repeat (constructor; [cbn; intuition discriminate |]); constructor.
  - destruct lower, higher; cbn; intros H; try lia; eexists; reflexivity.
Qed.

(** X14: [evaluateGovernance] approves by counting: the decision is
    approved exactly when there are at least as many signatures as the
    number of the tier; neither the operation nor the content of the
    signatures is looked at. *)
Theorem approval_counts_signatures now operation (signatures : list string) tier :
  approved (evaluateGovernance now operation signatures tier)
  = (tierNumber tier <=? Z.of_nat (length signatures))
  /\ forall now' operation' (signatures' : list string),
      length signatures' = length signatures ->
      approved (evaluateGovernance now' operation' signatures' tier)
      = approved (evaluateGovernance now operation signatures tier).
Proof.
  assert (A : forall n o (sg : list string),
             approved (evaluateGovernance n o sg tier)
             = (tierNumber tier <=? Z.of_nat (length sg))).
  { intros n o sg. cbn [evaluateGovernance approved].
    destruct tier; cbn [getRequiredTongues length tierNumber];
      apply Bool.eq_true_iff_eq; rewrite Nat.leb_le, Z.leb_le; lia. }
  split; [apply A |]. intros now' operation' signatures' L.
  now rewrite !A, L.
Qed.

Section Middleware.

Variable F : Type.
Variable getSecurityLevel : Looked -> F * string.
Variable envelopeOf : SCBESecurityContext -> string -> string.

(** The tier of an operation, as [evaluateSecurity] computes it. *)
Lemma governanceTier_evaluateSecurity (context : SCBESecurityContext) :
  governanceTier (evaluateSecurity getSecurityLevel envelopeOf context)
  = (let distance :=
       orThree (riskFactors (toLowerCase (beforeColon (operation context)))) in
     if leq distance 1 then Tier1
     else if leq distance 2 then Tier2
     else if leq distance 4 then Tier3
     else Tier4).
Proof.
  unfold evaluateSecurity.
  now destruct (getSecurityLevel _) as [multiplier level].
Qed.

Lemma beforeColon_app (m p : string) :
  beforeColon (m ++ ":" ++ p) = beforeColon m.
Proof.
  change (":" ++ p) with (String ":" p).
  induction m as [| c m IH]; cbn [append beforeColon].
  - reflexivity.
  - destruct (Ascii.eqb c ":"); [reflexivity | now rewrite IH].
Qed.

(** X15: with its default [minTier] of 1 the middleware never answers
    403: every request gets its result attached and [next()] called, and
    that result says [allowed]. *)
Theorem default_middleware_lets_every_request_pass (req : Request) :
  scbeMiddleware getSecurityLevel envelopeOf Tier1 req
  = Next (evaluateSecurity getSecurityLevel envelopeOf (contextOf req))
  /\ allowed (evaluateSecurity getSecurityLevel envelopeOf (contextOf req))
     = true.
Proof.
  split.
  - unfold scbeMiddleware.
    now destruct (governanceTier (evaluateSecurity _ _ (contextOf req))).
  - unfold evaluateSecurity.
    now destruct (getSecurityLevel _) as [multiplier level].
Qed.

(** X16: the middleware decides on the request method alone: two requests
    with the same method get the same tier and are both answered 403 or
    both passed on, whatever their paths, users, parameters, addresses and
    user agents. *)
Theorem middleware_decides_on_method (minTier : GovernanceTier) (r1 r2 : Request) :
  method r1 = method r2 ->
  governanceTier (evaluateSecurity getSecurityLevel envelopeOf (contextOf r1))
  = governanceTier (evaluateSecurity getSecurityLevel envelopeOf (contextOf r2))
  /\ match scbeMiddleware getSecurityLevel envelopeOf minTier r1,
           scbeMiddleware getSecurityLevel envelopeOf minTier r2 with
     | Forbidden _ _ _, Forbidden _ _ _ => True
     | Next _, Next _ => True
     | _, _ => False
     end.
Proof.
  intros M.
  assert (T : governanceTier
                (evaluateSecurity getSecurityLevel envelopeOf (contextOf r1))
              = governanceTier
                  (evaluateSecurity getSecurityLevel envelopeOf (contextOf r2))).
  { rewrite !governanceTier_evaluateSecurity. cbn [contextOf operation].
    now rewrite !beforeColon_app, M. }
  split; [exact T |]. unfold scbeMiddleware. rewrite T.
  now destruct (tierNumber _ <? tierNumber minTier).
Qed.

(** X17: every request with one of the HTTP methods GET, HEAD, POST, PUT,
    PATCH, DELETE or OPTIONS is of tier 3: the middleware passes it on for
    a [minTier] of 1, 2 or 3 and answers 403 "Insufficient security
    clearance" for a [minTier] of 4. *)
Theorem http_methods_are_tier_3 (minTier : GovernanceTier) (req : Request) :
  In (method req) ["GET"; "HEAD"; "POST"; "PUT"; "PATCH"; "DELETE"; "OPTIONS"] ->
  governanceTier (evaluateSecurity getSecurityLevel envelopeOf (contextOf req))
  = Tier3
  /\ scbeMiddleware getSecurityLevel envelopeOf minTier req
     = match minTier with
       | Tier4 => Forbidden "Insufficient security clearance" "Tier 4" "Tier 3"
       | _ => Next (evaluateSecurity getSecurityLevel envelopeOf (contextOf req))
       end.
Proof.
  intros M.
  assert (T : governanceTier
                (evaluateSecurity getSecurityLevel envelopeOf (contextOf req))
              = Tier3).
  { rewrite governanceTier_evaluateSecurity. cbn [contextOf operation].
    rewrite beforeColon_app. cbn [In] in M.
    repeat (destruct M as [<- | M]; [reflexivity |]). destruct M. }
  split; [exact T |]. unfold scbeMiddleware. rewrite T.
  now destruct minTier.
Qed.

End Middleware.

Lemma middleware_decides_on_method_witness :
  method sample_delete = method sample_delete_other
  /\ governanceTier
       (evaluateSecurity sample_level sample_envelope (contextOf sample_delete))
     = governanceTier
         (evaluateSecurity sample_level sample_envelope
                           (contextOf sample_delete_other)).
Proof.
  split; [reflexivity |].
  exact (proj1 (middleware_decides_on_method unit sample_level sample_envelope
                  Tier4 sample_delete sample_delete_other eq_refl)).
Defined.

Lemma http_methods_are_tier_3_witness :
  In (method sample_delete)
     ["GET"; "HEAD"; "POST"; "PUT"; "PATCH"; "DELETE"; "OPTIONS"]
  /\ scbeMiddleware sample_level sample_envelope Tier4 sample_delete
     = Forbidden "Insufficient security clearance" "Tier 4" "Tier 3".
Proof.
  assert (M : In (method sample_delete)
                 ["GET"; "HEAD"; "POST"; "PUT"; "PATCH"; "DELETE"; "OPTIONS"])
    by (cbn; tauto).
  split; [exact M |].
  exact (proj2 (http_methods_are_tier_3 unit sample_level sample_envelope
                  Tier4 sample_delete M)).
Defined.

End SCBEFacts.
